(** * ExtensibleFactory: a shallow embedding of
      [Creational/ExtensibleFactory/ExtensibleFactory.cpp]

    The program keeps a static table from type names to creation callbacks
    ([GameObjectFactory::s_Objects]), three concrete [IGameObject] classes
    each with a static instance counter, and a [main] that registers the
    three classes, builds a vector of objects from the lines of
    [level1.txt] and runs one update/render pass over it.

    The embedding passes the program state explicitly.  Calls that can hit
    undefined behaviour (a virtual call through a null or wild pointer)
    return [option].  Storage is taken to be unbounded, so [new] always
    succeeds; the [int] counters wrap at 32 bits. *)

From stdpp Require Import gmap strings list fin_maps pretty.
From Stdlib Require Import ZArith Lia.

Local Open Scope string_scope.
Local Open Scope Z_scope.
Local Open Scope list_scope.

(** ** Data *)

(** The concrete classes deriving from [IGameObject]; an object carries no
    data members, so an object on the heap is its dynamic type. *)
Inductive class := Plane | Boat | Ant.

(** The function-pointer type [CreateObjectCallback] (no argument, returns
    an [IGameObject] pointer): the functions of the program with that
    signature are the three static [Create] members. *)
Inductive CreateObjectCallback := PlaneCreate | BoatCreate | AntCreate.

(** [IGameObject*]: null, or the address of a heap cell. *)
Inductive pointer := nullptr | addr (l : nat).

(** Virtual calls dispatched so far (an observation trace; [Update] has an
    empty body in every class, so output alone cannot show the call order). *)
Inductive event := Update_call (l : nat) | Render_call (l : nat).

#[global] Instance class_eq_dec : EqDecision class.
Proof. solve_decision. Defined.
#[global] Instance callback_eq_dec : EqDecision CreateObjectCallback.
Proof. solve_decision. Defined.
#[global] Instance pointer_eq_dec : EqDecision pointer.
Proof. solve_decision. Defined.
#[global] Instance event_eq_dec : EqDecision event.
Proof. solve_decision. Defined.

Record State := mkState {
  s_Objects : gmap string CreateObjectCallback;  (* GameObjectFactory::s_Objects *)
  Plane_ObjectsCreated : Z;                      (* Plane::ObjectsCreated *)
  Boat_ObjectsCreated : Z;                       (* Boat::ObjectsCreated *)
  Ant_ObjectsCreated : Z;                        (* Ant::ObjectsCreated *)
  heap : list class;                             (* objects made by [new], by address *)
  cout : string;                                 (* characters written to std::cout *)
  calls : list event                             (* virtual calls made, oldest first *)
}.

(** Static initialisation: empty map, the three counters set to 0. *)
Definition initial : State := mkState ∅ 0 0 0 [] "" [].

(** ** [int] arithmetic *)

Definition INT_MIN : Z := -2147483648.
Definition INT_MAX : Z := 2147483647.

(** Reduction of a mathematical integer to a 32-bit two's complement [int]. *)
Definition int_wrap (z : Z) : Z := (z + 2 ^ 31) mod 2 ^ 32 - 2 ^ 31.

(** [ObjectsCreated++] *)
Definition int_incr (c : Z) : Z := int_wrap (c + 1).

(** ** The classes *)

Definition set_s_Objects (m : gmap string CreateObjectCallback) (st : State) : State :=
  mkState m (Plane_ObjectsCreated st) (Boat_ObjectsCreated st)
          (Ant_ObjectsCreated st) (heap st) (cout st) (calls st).

Definition set_heap (h : list class) (st : State) : State :=
  mkState (s_Objects st) (Plane_ObjectsCreated st) (Boat_ObjectsCreated st)
          (Ant_ObjectsCreated st) h (cout st) (calls st).

Definition set_cout (o : string) (st : State) : State :=
  mkState (s_Objects st) (Plane_ObjectsCreated st) (Boat_ObjectsCreated st)
          (Ant_ObjectsCreated st) (heap st) o (calls st).

Definition set_calls (t : list event) (st : State) : State :=
  mkState (s_Objects st) (Plane_ObjectsCreated st) (Boat_ObjectsCreated st)
          (Ant_ObjectsCreated st) (heap st) (cout st) t.

(** [Plane(int x, int y) { ObjectsCreated++; }] and its two siblings. *)
Definition Plane_ctor (x y : Z) (st : State) : State :=
  mkState (s_Objects st) (int_incr (Plane_ObjectsCreated st)) (Boat_ObjectsCreated st)
          (Ant_ObjectsCreated st) (heap st) (cout st) (calls st).

Definition Boat_ctor (x y : Z) (st : State) : State :=
  mkState (s_Objects st) (Plane_ObjectsCreated st) (int_incr (Boat_ObjectsCreated st))
          (Ant_ObjectsCreated st) (heap st) (cout st) (calls st).

Definition Ant_ctor (x y : Z) (st : State) : State :=
  mkState (s_Objects st) (Plane_ObjectsCreated st) (Boat_ObjectsCreated st)
          (int_incr (Ant_ObjectsCreated st)) (heap st) (cout st) (calls st).

(** Storage for a [new] expression: the next free cell, which from then on
    holds an object of class [c].  Nothing is ever deleted by the program. *)
Definition allocate (c : class) (st : State) : nat * State :=
  (length (heap st), set_heap (heap st ++ [c]) st).

(** [static IGameObject* Create() { return new Plane(0, 0); }] *)
Definition Plane_Create (st : State) : pointer * State :=
  let '(l, st1) := allocate Plane st in (addr l, Plane_ctor 0 0 st1).

Definition Boat_Create (st : State) : pointer * State :=
  let '(l, st1) := allocate Boat st in (addr l, Boat_ctor 0 0 st1).

Definition Ant_Create (st : State) : pointer * State :=
  let '(l, st1) := allocate Ant st in (addr l, Ant_ctor 0 0 st1).

(** [std::endl] *)
Definition endl : string := String (Ascii.ascii_of_nat 10) EmptyString.

(** [std::cout << s << std::endl] *)
Definition print_endl (s : string) (st : State) : State :=
  set_cout (cout st +:+ s +:+ endl) st.

(** [void Update() {}] *)
Definition Plane_Update (st : State) : State := st.
Definition Boat_Update (st : State) : State := st.
Definition Ant_Update (st : State) : State := st.

(** [void Render() { std::cout<<"plane"<<std::endl; }] *)
Definition Plane_Render (st : State) : State := print_endl "plane" st.
Definition Boat_Render (st : State) : State := print_endl "boat" st.
Definition Ant_Render (st : State) : State := print_endl "ant" st.

(** The virtual table: the overrider each dynamic type selects. *)
Definition virtual_Update (c : class) : State → State :=
  match c with
  | Plane => Plane_Update
  | Boat => Boat_Update
  | Ant => Ant_Update
  end.

Definition virtual_Render (c : class) : State → State :=
  match c with
  | Plane => Plane_Render
  | Boat => Boat_Render
  | Ant => Ant_Render
  end.

(** The dynamic type found through a pointer; [None] for the null pointer
    and for an address that holds no object. *)
Definition dynamic_type (e : pointer) (st : State) : option class :=
  match e with
  | nullptr => None
  | addr l => heap st !! l
  end.

Definition record_call (ev : event) (st : State) : State :=
  set_calls (calls st ++ [ev]) st.

(** [e->Update()]: undefined ([None]) unless [e] points to an object. *)
Definition call_Update (e : pointer) (st : State) : option State :=
  match e with
  | nullptr => None
  | addr l => c ← heap st !! l; Some (virtual_Update c (record_call (Update_call l) st))
  end.

(** [e->Render()] *)
Definition call_Render (e : pointer) (st : State) : option State :=
  match e with
  | nullptr => None
  | addr l => c ← heap st !! l; Some (virtual_Render c (record_call (Render_call l) st))
  end.

(** ** GameObjectFactory *)

(** Calling through a [CreateObjectCallback]. *)
Definition invoke (cb : CreateObjectCallback) : State → pointer * State :=
  match cb with
  | PlaneCreate => Plane_Create
  | BoatCreate => Boat_Create
  | AntCreate => Ant_Create
  end.

(** The class whose constructor a callback runs. *)
Definition class_of (cb : CreateObjectCallback) : class :=
  match cb with
  | PlaneCreate => Plane
  | BoatCreate => Boat
  | AntCreate => Ant
  end.

(** [s_Objects[type] = cb;] *)
Definition RegisterObject (type : string) (cb : CreateObjectCallback) (st : State) : State :=
  set_s_Objects (<[type := cb]> (s_Objects st)) st.

(** [s_Objects.erase(type);] *)
Definition UnregisterObject (type : string) (st : State) : State :=
  set_s_Objects (delete type (s_Objects st)) st.

(** [it = s_Objects.find(type); if (it != end()) return (it->second)();
    return nullptr;] *)
Definition CreateSingleObject (type : string) (st : State) : pointer * State :=
  match s_Objects st !! type with
  | Some cb => invoke cb st
  | None => (nullptr, st)
  end.

(** ** [main] *)

Definition newline : Ascii.ascii := Ascii.ascii_of_nat 10.

(** One [std::getline(myFile, line)] on the unread part of the file: the
    characters before the first newline, and what stays unread after the
    newline has been dropped. *)
Fixpoint getline (input : string) : string * string :=
  match input with
  | EmptyString => (EmptyString, EmptyString)
  | String c rest =>
      if Ascii.eqb c newline then (EmptyString, rest)
      else let '(line, rest') := getline rest in (String c line, rest')
  end.

(** The values [line] takes in [while (std::getline(myFile, line))]: the
    call fails, ending the loop, when nothing is left to read. *)
Fixpoint getlines (fuel : nat) (input : string) : list string :=
  match fuel with
  | O => []
  | S fuel' =>
      match input with
      | EmptyString => []
      | _ => let '(line, rest) := getline input in line :: getlines fuel' rest
      end
  end.

(** Every successful [getline] consumes a character, so the length of the
    file bounds the number of iterations. *)
Definition read_lines (input : string) : list string :=
  getlines (String.length input) input.

(** The body of the [while] loop, once per line read:
    [object = CreateSingleObject(line); gameObjectCollection.push_back(object);] *)
Fixpoint load_lines (lines : list string) (gameObjectCollection : list pointer)
    (st : State) : list pointer * State :=
  match lines with
  | [] => (gameObjectCollection, st)
  | line :: rest =>
      let '(object, st1) := CreateSingleObject line st in
      load_lines rest (gameObjectCollection ++ [object]) st1
  end.

(** [std::ifstream myFile("level1.txt"); if (myFile.is_open()) { while ... }]
    with [None] for a file that cannot be opened. *)
Definition Load (myFile : option string) (st : State) : list pointer * State :=
  match myFile with
  | None => ([], st)
  | Some content => load_lines (read_lines content) [] st
  end.

(** [for (auto& e: gameObjectCollection) { e->Update(); e->Render(); }] *)
Fixpoint Tick (gameObjectCollection : list pointer) (st : State) : option State :=
  match gameObjectCollection with
  | [] => Some st
  | e :: rest =>
      st1 ← call_Update e st;
      st2 ← call_Render e st1;
      Tick rest st2
  end.

Definition registered_main : State :=
  RegisterObject "ant" AntCreate
    (RegisterObject "boat" BoatCreate
       (RegisterObject "plane" PlaneCreate initial)).

Definition main (level1 : option string) : option State :=
  let '(gameObjectCollection, st) := Load level1 registered_main in
  Tick gameObjectCollection st.

(** The classes of the objects a collection points to ([None] where an
    entry points to no object). *)
Definition classes_of (coll : list pointer) (st : State) : list (option class) :=
  map (λ e, dynamic_type e st) coll.

(** ** Registry operations as data, for statements about histories *)

Inductive registry_op :=
  | Register (type : string) (cb : CreateObjectCallback)
  | Unregister (type : string).

Definition op_type (op : registry_op) : string :=
  match op with
  | Register type _ => type
  | Unregister type => type
  end.

Definition run_op (st : State) (op : registry_op) : State :=
  match op with
  | Register type cb => RegisterObject type cb st
  | Unregister type => UnregisterObject type st
  end.

(** A sequence of registry calls, oldest first. *)
Definition run_ops (ops : list registry_op) (st : State) : State :=
  foldl run_op st ops.

(** The static counter of a class. *)
Definition ObjectsCreated (c : class) (st : State) : Z :=
  match c with
  | Plane => Plane_ObjectsCreated st
  | Boat => Boat_ObjectsCreated st
  | Ant => Ant_ObjectsCreated st
  end.

(** A sequence of factory invocations, oldest first. *)
Definition invoke_all (cbs : list CreateObjectCallback) (st : State) : State :=
  foldl (λ s cb, (invoke cb s).2) st cbs.

(** How many of the invocations construct an object of class [c]. *)
Definition invocations (c : class) (cbs : list CreateObjectCallback) : Z :=
  Z.of_nat (length (filter (λ cb, class_of cb = c) cbs)).

(** The virtual calls one pass makes for an entry. *)
Definition entry_calls (e : pointer) : list event :=
  match e with
  | nullptr => []
  | addr l => [Update_call l; Render_call l]
  end.

(** A registry holding only ["plane"] and ["boat"]. *)
Definition plane_boat_registered : State :=
  RegisterObject "boat" BoatCreate (RegisterObject "plane" PlaneCreate initial).

(** The state in which [main] starts its pass when the file holds the lines
    plane and boat. *)
Definition loaded_plane_boat : list pointer * State :=
  Load (Some ("plane" +:+ endl +:+ "boat" +:+ endl)) registered_main.

(** ** Text files, for statements about what [main] reads and prints *)

(** Whether a string has a newline character in it. *)
Fixpoint contains_newline (s : string) : bool :=
  match s with
  | EmptyString => false
  | String c rest => Ascii.eqb c newline || contains_newline rest
  end.

(** Whether the last character of a string is a newline. *)
Fixpoint ends_with_newline (s : string) : bool :=
  match s with
  | EmptyString => false
  | String c rest =>
      match rest with
      | EmptyString => Ascii.eqb c newline
      | String _ _ => ends_with_newline rest
      end
  end.

(** The text made of the given lines, each followed by a newline. *)
Fixpoint unlines (lines : list string) : string :=
  match lines with
  | [] => EmptyString
  | line :: rest => line +:+ endl +:+ unlines rest
  end.

(** A text with the newline its last line may lack. *)
Definition terminated (s : string) : string :=
  if ends_with_newline s then s
  else match s with
       | EmptyString => EmptyString
       | String _ _ => s +:+ endl
       end.

(** The number of newline characters of a string. *)
Fixpoint count_newlines (s : string) : nat :=
  match s with
  | EmptyString => O
  | String c rest => ((if Ascii.eqb c newline then 1 else 0) + count_newlines rest)%nat
  end.

(** What [Render] of each class writes before the [endl]. *)
Definition Render_text (c : class) : string :=
  match c with
  | Plane => "plane"
  | Boat => "boat"
  | Ant => "ant"
  end.

(** The callbacks a load calls: those registered for its lines, in line
    order (a line with no entry calls none). *)
Definition factories_of (m : gmap string CreateObjectCallback) (lines : list string)
    : list CreateObjectCallback :=
  omap (λ id, m !! id) lines.

(** What a pass over a collection prints: for each entry, in order, the
    text of its class and a newline. *)
Definition rendered (coll : list pointer) (st : State) : string :=
  unlines (omap (λ e, Render_text <$> dynamic_type e st) coll).

(** The state a pass leaves when it runs to its end. *)
Definition after_Tick (coll : list pointer) (st : State) : State :=
  set_calls (calls st ++ concat (map entry_calls coll))
    (set_cout (cout st +:+ rendered coll st) st).

(** * The other programs of the repository *)

(** ** [Creational/Singleton/Singleton.cpp] *)

Module Singleton.

(** A [Logger] object: its [m_messages]. *)
Record Logger := mkLogger { m_messages : list string }.

Record State := mkState {
  s_instance : option nat;  (* the local static of GetInstance; [None] until initialised *)
  heap : list Logger;       (* objects made by [new], by address *)
  cout : string             (* characters written to std::cout *)
}.

Definition initial : State := mkState None [] "".

(** [std::cout << s] *)
Definition print (s : string) (st : State) : State :=
  mkState (s_instance st) (heap st) (cout st +:+ s).

(** [Logger() { std::cout << "Logger was created\n"; }], on a new object
    whose vector of messages is empty. *)
Definition Logger_ctor (st : State) : Logger * State :=
  (mkLogger [], print ("Logger was created" +:+ endl) st).

(** [new Logger] *)
Definition new_Logger (st : State) : nat * State :=
  let '(object, st1) := Logger_ctor st in
  (length (heap st1), mkState (s_instance st1) (heap st1 ++ [object]) (cout st1)).

(** [static Logger* s_instance = new Logger; return *s_instance;]: the
    initialiser runs the first time control passes the declaration. *)
Definition GetInstance (st : State) : nat * State :=
  match s_instance st with
  | Some l => (l, st)
  | None =>
      let '(l, st1) := new_Logger st in
      (l, mkState (Some l) (heap st1) (cout st1))
  end.

(** [void addMessage(std::string s) { m_messages.push_back(s); }];
    undefined ([None]) on a reference to no object. *)
Definition addMessage (this : nat) (s : string) (st : State) : option State :=
  object ← heap st !! this;
  Some (mkState (s_instance st)
          (<[this := mkLogger (m_messages object ++ [s])]> (heap st)) (cout st)).

(** [for (std::string& s : m_messages) std::cout << s << std::endl;] *)
Fixpoint print_each (messages : list string) (st : State) : State :=
  match messages with
  | [] => st
  | s :: rest => print_each rest (print endl (print s st))
  end.

(** [void printMessages()] *)
Definition printMessages (this : nat) (st : State) : option State :=
  object ← heap st !! this;
  Some (print_each (m_messages object) (print ("Accessing the log" +:+ endl) st)).

(** [main] *)
Definition main : option State :=
  let '(l1, st1) := GetInstance initial in
  st2 ← addMessage l1 "Hello" st1;
  let '(l2, st3) := GetInstance st2 in
  st4 ← addMessage l2 "World" st3;
  let '(l3, st5) := GetInstance st4 in
  printMessages l3 st5.

(** A use of the logger by client code, always through [GetInstance]. *)
Inductive use := use_addMessage (s : string) | use_printMessages.

Definition perform (u : use) (st : State) : option State :=
  let '(this, st1) := GetInstance st in
  match u with
  | use_addMessage s => addMessage this s st1
  | use_printMessages => printMessages this st1
  end.

Fixpoint run (uses : list use) (st : State) : option State :=
  match uses with
  | [] => Some st
  | u :: rest => st1 ← perform u st; run rest st1
  end.

(** The messages a sequence of uses adds, in order. *)
Fixpoint added (uses : list use) : list string :=
  match uses with
  | [] => []
  | use_addMessage s :: rest => s :: added rest
  | use_printMessages :: rest => added rest
  end.

(** What a sequence of uses prints when the log already holds [seen]. *)
Fixpoint printed (seen : list string) (uses : list use) : string :=
  match uses with
  | [] => ""
  | use_addMessage s :: rest => printed (seen ++ [s]) rest
  | use_printMessages :: rest =>
      "Accessing the log" +:+ endl +:+ unlines seen +:+ printed seen rest
  end.

End Singleton.

(** ** [Creational/Singleton/MultithreadedSingleton.cpp] *)

Module MultithreadedSingleton.

(** A [Singleton] object: its [value_]. *)
Record Singleton := mkSingleton { value_ : string }.

Record State := mkState {
  pinstance_ : pointer;     (* Singleton::pinstance_ *)
  heap : list Singleton     (* objects made by [new], by address *)
}.

(** [Singleton *Singleton::pinstance_ = nullptr;] *)
Definition initial : State := mkState nullptr [].

(** The body of [GetInstance], which runs with [mutex_] held from its first
    statement to its return:
    [if (pinstance_ == nullptr) pinstance_ = new Singleton(value);
     return pinstance_;] *)
Definition GetInstance (value : string) (st : State) : pointer * State :=
  match pinstance_ st with
  | nullptr =>
      let l := length (heap st) in
      (addr l, mkState (addr l) (heap st ++ [mkSingleton value]))
  | addr l => (addr l, st)
  end.

(** [singleton->value()]; undefined ([None]) through a pointer to no object. *)
Definition value (this : pointer) (st : State) : option string :=
  match this with
  | nullptr => None
  | addr l => value_ <$> heap st !! l
  end.

(** Calls of [GetInstance], in the order in which they take the lock. *)
Fixpoint GetInstance_all (values : list string) (st : State)
    : list pointer * State :=
  match values with
  | [] => ([], st)
  | v :: rest =>
      let '(p, st1) := GetInstance v st in
      let '(ps, st2) := GetInstance_all rest st1 in
      (p :: ps, st2)
  end.

End MultithreadedSingleton.

(** ** [Creational/FactoryMethod/FactoryMethodOld.cpp] *)

Module FactoryMethodOld.

(** The classes deriving from [IGameObject] in this file. *)
Inductive class := Plane | Boat.

(** [enum class ObjectType {PLANE, BOAT}]: a scoped enumeration over [int];
    a value need not be one of the two enumerators. *)
Definition PLANE : Z := 0.
Definition BOAT : Z := 1.

Record State := mkState {
  s_plane_count : Z;   (* FactoryGameObjects::s_plane_count *)
  s_boat_count : Z;    (* FactoryGameObjects::s_boat_count *)
  heap : list class;   (* every object std::make_shared has made; their release
                          by shared_ptr has no effect the program can observe
                          and is not followed *)
  cout : string        (* characters written to std::cout *)
}.

Definition initial : State := mkState 0 0 [] "".

(** [std::make_shared<C>()] *)
Definition make_shared (c : class) (st : State) : pointer * State :=
  (addr (length (heap st)),
   mkState (s_plane_count st) (s_boat_count st) (heap st ++ [c]) (cout st)).

(** [FactoryGameObjects::CreateObject] *)
Definition CreateObject (type : Z) (st : State) : pointer * State :=
  if type =? PLANE then
    make_shared Plane
      (mkState (int_incr (s_plane_count st)) (s_boat_count st) (heap st) (cout st))
  else if type =? BOAT then
    make_shared Boat
      (mkState (s_plane_count st) (int_incr (s_boat_count st)) (heap st) (cout st))
  else (nullptr, st).

(** [std::cout << s] and [std::cout << n] for an [int], written in decimal. *)
Definition print (s : string) (st : State) : State :=
  mkState (s_plane_count st) (s_boat_count st) (heap st) (cout st +:+ s).

Definition print_int (n : Z) (st : State) : State := print (pretty n) st.

(** [FactoryGameObjects::PrintCounts] *)
Definition PrintCounts (st : State) : State :=
  let st1 := print endl (print_int (s_plane_count st) (print "planes: " st)) in
  print endl (print_int (s_boat_count st1) (print "boats: " st1)).

(** Calls of [CreateObject], oldest first. *)
Definition CreateObject_all (types : list Z) (st : State) : State :=
  foldl (λ s type, (CreateObject type s).2) st types.

(** [main] *)
Definition main : State :=
  let '(plane, st1) := CreateObject PLANE initial in
  let '(boat, st2) := CreateObject BOAT st1 in
  let '(boat2, st3) := CreateObject BOAT st2 in
  PrintCounts st3.

End FactoryMethodOld.

(** * Properties *)

(** ** Factories *)

Section Factories.
Variables (cb : CreateObjectCallback) (st : State).

Lemma invoke_pointer : (invoke cb st).1 = addr (length (heap st)).
Proof. by destruct cb. Qed.

Lemma invoke_heap : heap (invoke cb st).2 = heap st ++ [class_of cb].
Proof. by destruct cb. Qed.

Lemma invoke_s_Objects : s_Objects (invoke cb st).2 = s_Objects st.
Proof. by destruct cb. Qed.

Lemma invoke_cout : cout (invoke cb st).2 = cout st.
Proof. by destruct cb. Qed.

Lemma invoke_calls : calls (invoke cb st).2 = calls st.
Proof. by destruct cb. Qed.

Lemma invoke_fresh : heap st !! length (heap st) = None.
Proof. by apply lookup_ge_None_2. Qed.

Lemma invoke_dynamic_type :
  dynamic_type (invoke cb st).1 (invoke cb st).2 = Some (class_of cb).
Proof.
  rewrite invoke_pointer. cbn. rewrite invoke_heap.
  by rewrite lookup_app_r, Nat.sub_diag.
Qed.

Lemma invoke_other_counter (c : class) :
  c ≠ class_of cb → ObjectsCreated c (invoke cb st).2 = ObjectsCreated c st.
Proof. by destruct cb, c. Qed.

Lemma invoke_own_counter :
  ObjectsCreated (class_of cb) (invoke cb st).2
  = int_incr (ObjectsCreated (class_of cb) st).
Proof. by destruct cb. Qed.
End Factories.

Lemma int_incr_in_range (c : Z) : INT_MIN ≤ c < INT_MAX → int_incr c = c + 1.
Proof.
  unfold INT_MIN, INT_MAX, int_incr, int_wrap. intros Hc.
  rewrite Z.mod_small; lia.
Qed.

Lemma class_of_inj (f g : CreateObjectCallback) : class_of f = class_of g → f = g.
Proof. by destruct f, g. Qed.

(** Objects never move or change class once made. *)
Lemma dynamic_type_app (e : pointer) (st st' : State) (c : class) (k : list class) :
  heap st' = heap st ++ k →
  dynamic_type e st = Some c → dynamic_type e st' = Some c.
Proof.
  intros Hh. destruct e as [|l]; cbn; [done|].
  rewrite Hh. apply lookup_app_l_Some.
Qed.

(** ** GameObjectFactory *)

Lemma CreateSingleObject_hit (type : string) (cb : CreateObjectCallback) (st : State) :
  s_Objects st !! type = Some cb → CreateSingleObject type st = invoke cb st.
Proof. unfold CreateSingleObject. by intros ->. Qed.

Lemma CreateSingleObject_miss (type : string) (st : State) :
  s_Objects st !! type = None → CreateSingleObject type st = (nullptr, st).
Proof. unfold CreateSingleObject. by intros ->. Qed.

Lemma CreateSingleObject_s_Objects (type : string) (st : State) :
  s_Objects (CreateSingleObject type st).2 = s_Objects st.
Proof.
  unfold CreateSingleObject.
  destruct (s_Objects st !! type) as [cb|]; [apply invoke_s_Objects | done].
Qed.

Lemma CreateSingleObject_heap (type : string) (st : State) :
  ∃ k, heap (CreateSingleObject type st).2 = heap st ++ k.
Proof.
  unfold CreateSingleObject. destruct (s_Objects st !! type) as [cb|].
  - exists [class_of cb]. apply invoke_heap.
  - exists []. cbn. by rewrite app_nil_r.
Qed.

Lemma s_Objects_RegisterObject (type : string) (cb : CreateObjectCallback) (st : State) :
  s_Objects (RegisterObject type cb st) = <[type := cb]> (s_Objects st).
Proof. done. Qed.

Lemma s_Objects_UnregisterObject (type : string) (st : State) :
  s_Objects (UnregisterObject type st) = delete type (s_Objects st).
Proof. done. Qed.

Lemma State_eq (a b : State) :
  s_Objects a = s_Objects b →
  Plane_ObjectsCreated a = Plane_ObjectsCreated b →
  Boat_ObjectsCreated a = Boat_ObjectsCreated b →
  Ant_ObjectsCreated a = Ant_ObjectsCreated b →
  heap a = heap b → cout a = cout b → calls a = calls b → a = b.
Proof. destruct a, b; cbn; by intros -> -> -> -> -> -> ->. Qed.

(** C1 (as amended).  On a lookup miss [CreateSingleObject] raises no
    error of its own: for every type with no entry it returns the null
    pointer as its result, having constructed nothing and left the whole
    state as it was.  The null result is the only sign of the miss. *)
Theorem CreateSingleObject_miss_is_nullptr (type : string) (st : State) :
  s_Objects st !! type = None →
  (CreateSingleObject type st).1 = nullptr
  ∧ (CreateSingleObject type st).2 = st.
Proof.
  intros Hmiss. unfold CreateSingleObject. rewrite Hmiss. split; reflexivity.
Qed.

Lemma CreateSingleObject_miss_is_nullptr_unicorn :
  (CreateSingleObject "unicorn" registered_main).1 = nullptr
  ∧ (CreateSingleObject "unicorn" registered_main).2 = registered_main.
Proof.
  apply (CreateSingleObject_miss_is_nullptr "unicorn" registered_main).
  vm_compute. reflexivity.
Defined.

(** C1, the claim as written fails: with the three types of [main]
    registered, ["unicorn"] has no entry and [CreateSingleObject] hands back
    the null pointer as its result. *)
Lemma CreateSingleObject_unicorn_is_nullptr :
  s_Objects registered_main !! "unicorn" = None
  ∧ (CreateSingleObject "unicorn" registered_main).1 = nullptr.
Proof. split; vm_compute; reflexivity. Qed.



(** ** Registration *)

Lemma RegisterObject_twice (type : string) (f g : CreateObjectCallback) (st : State) :
  RegisterObject type g (RegisterObject type f st) = RegisterObject type g st.
Proof. apply State_eq; try done. cbn. apply insert_insert_eq. Qed.

Lemma CreateSingleObject_RegisterObject (type : string) (cb : CreateObjectCallback)
    (st : State) :
  CreateSingleObject type (RegisterObject type cb st)
  = invoke cb (RegisterObject type cb st).
Proof. apply CreateSingleObject_hit. cbn. apply lookup_insert_eq. Qed.

Lemma CreateSingleObject_UnregisterObject (type : string) (st : State) :
  CreateSingleObject type (UnregisterObject type st)
  = (nullptr, UnregisterObject type st).
Proof. apply CreateSingleObject_miss. cbn. apply lookup_delete_eq. Qed.

(** C5.  Registering a type that is already present replaces its callback
    and is no error: the state after [RegisterObject type f] followed by
    [RegisterObject type g] is the state after [RegisterObject type g] alone,
    so [CreateSingleObject type] then calls [g].  Registration does not touch
    the heap: an object made with [f] before the second registration keeps
    its class, also after an object has been made with [g]. *)
Theorem RegisterObject_last_write_wins (type : string) (f g : CreateObjectCallback)
    (st : State) :
  let st1 := RegisterObject type f st in
  let r1 := CreateSingleObject type st1 in
  let st3 := RegisterObject type g r1.2 in
  let r2 := CreateSingleObject type st3 in
  RegisterObject type g st1 = RegisterObject type g st
  ∧ CreateSingleObject type (RegisterObject type g st1)
    = invoke g (RegisterObject type g st)
  ∧ heap (RegisterObject type g st1) = heap st1
  ∧ r2 = invoke g st3
  ∧ dynamic_type r1.1 r1.2 = Some (class_of f)
  ∧ dynamic_type r1.1 r2.2 = Some (class_of f)
  ∧ dynamic_type r2.1 r2.2 = Some (class_of g)
  ∧ r1.1 ≠ r2.1.
Proof.
  intros st1 r1 st3 r2.
  assert (Hr1 : r1 = invoke f st1) by apply CreateSingleObject_RegisterObject.
  assert (Hr2 : r2 = invoke g st3) by apply CreateSingleObject_RegisterObject.
  assert (Hd1 : dynamic_type r1.1 r1.2 = Some (class_of f))
    by (rewrite Hr1; apply invoke_dynamic_type).
  split_and!.
  - apply RegisterObject_twice.
  - unfold st1. rewrite RegisterObject_twice. apply CreateSingleObject_RegisterObject.
  - done.
  - done.
  - done.
  - apply (dynamic_type_app _ r1.2 _ _ [class_of g]); [|done].
    rewrite Hr2, invoke_heap. done.
  - rewrite Hr2. apply invoke_dynamic_type.
  - assert (H1 : r1.1 = addr (length (heap st1)))
      by (rewrite Hr1; apply invoke_pointer).
    assert (H2 : r2.1 = addr (length (heap st1 ++ [class_of f]))).
    { rewrite Hr2, invoke_pointer. do 2 f_equal.
      change (heap st3) with (heap r1.2). rewrite Hr1. apply invoke_heap. }
    rewrite H1, H2, length_app. cbn. intros [=]. lia.
Qed.

(** C6 (as amended).  After [UnregisterObject k], [CreateSingleObject k]
    raises no error of its own: it returns the null pointer as its result,
    constructs nothing and changes nothing.  [UnregisterObject] on a type
    with no entry does not fail and changes nothing (and those are the only
    states it leaves unchanged). *)
Theorem UnregisterObject_then_Create (k : string) (st : State) :
  CreateSingleObject k (UnregisterObject k st) = (nullptr, UnregisterObject k st)
  ∧ s_Objects (UnregisterObject k st) !! k = None
  ∧ (UnregisterObject k st = st ↔ s_Objects st !! k = None).
Proof.
  split_and!.
  - apply CreateSingleObject_UnregisterObject.
  - cbn. apply lookup_delete_eq.
  - split.
    + intros H. rewrite <- H. cbn. apply lookup_delete_eq.
    + intros H. apply State_eq; try done. cbn. by apply delete_id.
Qed.

(** C6, the claim as written fails: ["plane"] is registered by [main], and
    once it has been unregistered [CreateSingleObject] hands back the null
    pointer as its result, where the claim asks for a failure that is not a
    null return. *)
Lemma CreateSingleObject_after_Unregister_plane_is_nullptr :
  s_Objects registered_main !! "plane" = Some PlaneCreate
  ∧ (CreateSingleObject "plane" (UnregisterObject "plane" registered_main)).1
    = nullptr.
Proof. split; vm_compute; reflexivity. Qed.

(** ** Histories of registry calls *)

Lemma run_ops_snoc (ops : list registry_op) (op : registry_op) (st : State) :
  run_ops (ops ++ [op]) st = run_op (run_ops ops st) op.
Proof. unfold run_ops. by rewrite foldl_app. Qed.

Lemma run_ops_cons (op : registry_op) (ops : list registry_op) (st : State) :
  run_ops (op :: ops) st = run_ops ops (run_op st op).
Proof. done. Qed.

Lemma run_ops_app (ops ops' : list registry_op) (st : State) :
  run_ops (ops ++ ops') st = run_ops ops' (run_ops ops st).
Proof. unfold run_ops. by rewrite foldl_app. Qed.

(** Calls on other types leave the entry of [k] alone. *)
Lemma run_ops_other (k : string) (ops : list registry_op) (st : State) :
  Forall (λ op, op_type op ≠ k) ops →
  s_Objects (run_ops ops st) !! k = s_Objects st !! k.
Proof.
  induction ops as [|op ops IH] using rev_ind; [done|].
  rewrite Forall_app, Forall_singleton. intros [Hops Hop].
  rewrite run_ops_snoc, <- IH by done.
  destruct op as [type cb|type]; cbn in *.
  - by apply lookup_insert_ne.
  - by apply lookup_delete_ne.
Qed.

Lemma run_ops_heap (ops : list registry_op) (st : State) :
  heap (run_ops ops st) = heap st.
Proof.
  induction ops as [|op ops IH] using rev_ind; [done|].
  rewrite run_ops_snoc, <- IH. by destruct op.
Qed.

Lemma most_recent_Register (k : string) (cb : CreateObjectCallback)
    (before after : list registry_op) (st : State) :
  Forall (λ op, op_type op ≠ k) after →
  CreateSingleObject k (run_ops (before ++ Register k cb :: after) st)
  = invoke cb (run_ops (before ++ Register k cb :: after) st).
Proof.
  intros Hafter. apply CreateSingleObject_hit.
  rewrite run_ops_app, run_ops_cons.
  rewrite run_ops_other by done. cbn. apply lookup_insert_eq.
Qed.

Lemma most_recent_Unregister (k : string) (before after : list registry_op) (st : State) :
  Forall (λ op, op_type op ≠ k) after →
  CreateSingleObject k (run_ops (before ++ Unregister k :: after) st)
  = (nullptr, run_ops (before ++ Unregister k :: after) st).
Proof.
  intros Hafter. apply CreateSingleObject_miss.
  rewrite run_ops_app, run_ops_cons.
  rewrite run_ops_other by done. cbn. apply lookup_delete_eq.
Qed.

(** C8.  Types registered with different callbacks give objects of their own
    classes: each [CreateSingleObject] returns a non-null pointer to a cell
    that held no object before the call and holds an object of the class of
    the registered callback after it.  And what [CreateSingleObject k] does
    is decided by the latest [RegisterObject k _] or [UnregisterObject k] in
    the history of calls, whatever was done to other types since. *)
Theorem CreateSingleObject_registered_variant :
  (∀ (k1 k2 : string) (cb1 cb2 : CreateObjectCallback) (st : State),
      k1 ≠ k2 → cb1 ≠ cb2 →
      s_Objects st !! k1 = Some cb1 → s_Objects st !! k2 = Some cb2 →
      let r1 := CreateSingleObject k1 st in
      let r2 := CreateSingleObject k2 r1.2 in
      (r1.1 ≠ nullptr ∧ dynamic_type r1.1 st = None
       ∧ dynamic_type r1.1 r1.2 = Some (class_of cb1))
      ∧ (r2.1 ≠ nullptr ∧ dynamic_type r2.1 r1.2 = None
         ∧ dynamic_type r2.1 r2.2 = Some (class_of cb2))
      ∧ dynamic_type r1.1 r2.2 = Some (class_of cb1)
      ∧ class_of cb1 ≠ class_of cb2
      ∧ r1.1 ≠ r2.1)
  ∧ (∀ (k : string) (cb : CreateObjectCallback) (before after : list registry_op)
       (st : State),
        Forall (λ op, op_type op ≠ k) after →
        CreateSingleObject k (run_ops (before ++ Register k cb :: after) st)
        = invoke cb (run_ops (before ++ Register k cb :: after) st))
  ∧ (∀ (k : string) (before after : list registry_op) (st : State),
        Forall (λ op, op_type op ≠ k) after →
        CreateSingleObject k (run_ops (before ++ Unregister k :: after) st)
        = (nullptr, run_ops (before ++ Unregister k :: after) st)).
Proof.
  split_and!; [|apply most_recent_Register|apply most_recent_Unregister].
  intros k1 k2 cb1 cb2 st Hk Hcb H1 H2 r1 r2.
  assert (Hr1 : r1 = invoke cb1 st) by by apply CreateSingleObject_hit.
  assert (Hr2 : r2 = invoke cb2 r1.2).
  { apply CreateSingleObject_hit. by rewrite Hr1, invoke_s_Objects. }
  assert (Hp1 : r1.1 = addr (length (heap st))) by (rewrite Hr1; apply invoke_pointer).
  assert (Hp2 : r2.1 = addr (length (heap r1.2))) by (rewrite Hr2; apply invoke_pointer).
  assert (Hd1 : dynamic_type r1.1 r1.2 = Some (class_of cb1))
    by (rewrite Hr1; apply invoke_dynamic_type).
  split_and!.
  - by rewrite Hp1.
  - rewrite Hp1. apply invoke_fresh.
  - done.
  - by rewrite Hp2.
  - rewrite Hp2. apply invoke_fresh.
  - rewrite Hr2. apply invoke_dynamic_type.
  - apply (dynamic_type_app _ r1.2 _ _ [class_of cb2]); [|done].
    rewrite Hr2. apply invoke_heap.
  - intros E. by apply Hcb, class_of_inj.
  - rewrite Hp1, Hp2, Hr1, invoke_heap, length_app. cbn. intros [=]. lia.
Qed.

Lemma CreateSingleObject_registered_variant_witness :
  dynamic_type (CreateSingleObject "plane" registered_main).1
    (CreateSingleObject "plane" registered_main).2 = Some Plane
  ∧ dynamic_type
      (CreateSingleObject "boat" (CreateSingleObject "plane" registered_main).2).1
      (CreateSingleObject "boat" (CreateSingleObject "plane" registered_main).2).2
    = Some Boat.
Proof.
  destruct (proj1 CreateSingleObject_registered_variant
              "plane" "boat" PlaneCreate BoatCreate registered_main)
    as ((_ & _ & H1) & (_ & _ & H2) & _).
  - discriminate.
  - discriminate.
  - vm_compute; reflexivity.
  - vm_compute; reflexivity.
  - split; [exact H1 | exact H2].
Defined.

(** ** Loading *)

Lemma load_lines_acc (lines : list string) (coll : list pointer) (st : State) :
  load_lines lines coll st
  = (coll ++ (load_lines lines [] st).1, (load_lines lines [] st).2).
Proof.
  revert coll st. induction lines as [|line rest IH]; intros coll st; cbn.
  - by rewrite app_nil_r.
  - destruct (CreateSingleObject line st) as [object st1].
    rewrite (IH (coll ++ [object])), (IH [object]). cbn.
    by rewrite <- app_assoc.
Qed.

Lemma load_lines_cons (line : string) (rest : list string) (st : State) :
  load_lines (line :: rest) [] st
  = ((CreateSingleObject line st).1
       :: (load_lines rest [] (CreateSingleObject line st).2).1,
     (load_lines rest [] (CreateSingleObject line st).2).2).
Proof.
  cbn. destruct (CreateSingleObject line st) as [object st1].
  by rewrite load_lines_acc.
Qed.

(** Every line read contributes one entry, whatever its lookup gave. *)
Lemma load_lines_length (lines : list string) (st : State) :
  length (load_lines lines [] st).1 = length lines.
Proof.
  revert st. induction lines as [|line rest IH]; intros st; [done|].
  rewrite load_lines_cons. cbn. by rewrite IH.
Qed.

Lemma load_lines_s_Objects (lines : list string) (st : State) :
  s_Objects (load_lines lines [] st).2 = s_Objects st.
Proof.
  revert st. induction lines as [|line rest IH]; intros st; [done|].
  rewrite load_lines_cons. cbn. by rewrite IH, CreateSingleObject_s_Objects.
Qed.

Lemma load_lines_heap (lines : list string) (st : State) :
  ∃ k, heap (load_lines lines [] st).2 = heap st ++ k.
Proof.
  revert st. induction lines as [|line rest IH]; intros st.
  - exists []. cbn. by rewrite app_nil_r.
  - rewrite load_lines_cons. cbn.
    destruct (IH (CreateSingleObject line st).2) as [k2 ->].
    destruct (CreateSingleObject_heap line st) as [k1 ->].
    exists (k1 ++ k2). by rewrite app_assoc.
Qed.

(** C4.  When every line names a registered type, the collection built by
    the loading loop is index-aligned with the lines: it has one entry per
    line, and the entry at the position of a line is a non-null pointer to
    an object of the class registered under that line.  (The witness is the
    load of plane, boat, plane.) *)
Theorem Load_index_aligned (lines : list string) (st : State) :
  Forall (λ id, is_Some (s_Objects st !! id)) lines →
  length (load_lines lines [] st).1 = length lines
  ∧ Forall2 (λ id e, ∃ cb, s_Objects st !! id = Some cb ∧ e ≠ nullptr
                           ∧ dynamic_type e (load_lines lines [] st).2
                             = Some (class_of cb))
      lines (load_lines lines [] st).1
  ∧ classes_of (load_lines lines [] st).1 (load_lines lines [] st).2
    = map (λ id, class_of <$> s_Objects st !! id) lines.
Proof.
  intros Hreg. split; [apply load_lines_length|].
  assert (HF : Forall2 (λ id e, ∃ cb, s_Objects st !! id = Some cb ∧ e ≠ nullptr
                           ∧ dynamic_type e (load_lines lines [] st).2
                             = Some (class_of cb))
      lines (load_lines lines [] st).1).
  { revert st Hreg. induction lines as [|line rest IH]; intros st Hreg.
    - constructor.
    - apply Forall_cons in Hreg as [[cb Hcb] Hrest].
      rewrite load_lines_cons. cbn [fst snd].
      rewrite (CreateSingleObject_hit _ _ _ Hcb).
      destruct (load_lines_heap rest (invoke cb st).2) as [k Hk].
      constructor.
      + exists cb. split_and!; [done | by rewrite invoke_pointer |].
        eapply dynamic_type_app; [exact Hk | apply invoke_dynamic_type].
      + specialize (IH (invoke cb st).2).
        rewrite invoke_s_Objects in IH. by apply IH. }
  split; [exact HF|].
  clear Hreg. revert HF. generalize (load_lines lines [] st).2 (load_lines lines [] st).1.
  intros stf coll HF. unfold classes_of. induction HF as [|id e ids es (cb & Hcb & _ & Hd) _ IH]; [done|].
  cbn. by rewrite IH, Hcb, Hd.
Qed.

Lemma Load_plane_boat_plane :
  classes_of (load_lines ["plane"; "boat"; "plane"] [] plane_boat_registered).1
             (load_lines ["plane"; "boat"; "plane"] [] plane_boat_registered).2
  = [Some Plane; Some Boat; Some Plane].
Proof.
  destruct (Load_index_aligned ["plane"; "boat"; "plane"] plane_boat_registered)
    as (_ & _ & H).
  - repeat constructor; vm_compute; eauto.
  - rewrite H. vm_compute. reflexivity.
Defined.

(** C2, what the code does.  The loop pushes whatever [CreateSingleObject]
    returned: for the lines plane, unicorn, boat with only plane and boat
    registered, the collection has three entries, the middle one null, and
    the pass over it makes a virtual call through that null pointer. *)
Theorem Load_unicorn_pushes_nullptr :
  (load_lines ["plane"; "unicorn"; "boat"] [] plane_boat_registered).1
  = [addr 0; nullptr; addr 1]
  ∧ length (load_lines ["plane"; "unicorn"; "boat"] [] plane_boat_registered).1 = 3%nat
  ∧ classes_of (load_lines ["plane"; "unicorn"; "boat"] [] plane_boat_registered).1
               (load_lines ["plane"; "unicorn"; "boat"] [] plane_boat_registered).2
    = [Some Plane; None; Some Boat]
  ∧ Tick (load_lines ["plane"; "unicorn"; "boat"] [] plane_boat_registered).1
         (load_lines ["plane"; "unicorn"; "boat"] [] plane_boat_registered).2 = None
  ∧ main (Some ("plane" +:+ endl +:+ "unicorn" +:+ endl +:+ "boat" +:+ endl)) = None.
Proof. split_and!; vm_compute; reflexivity. Qed.

(** ** Reading the file *)

Lemma getline_rest_length (c : Ascii.ascii) (input : string) :
  (String.length (getline (String c input)).2 ≤ String.length input)%nat.
Proof.
  revert c. induction input as [|d input IH]; intros c; cbn.
  - destruct (Ascii.eqb c newline); cbn; lia.
  - destruct (Ascii.eqb c newline); [cbn; lia|].
    specialize (IH d). cbn in IH.
    destruct (Ascii.eqb d newline); [cbn; lia|].
    destruct (getline input) as [line rest]; cbn in *. lia.
Qed.

(** The loop never stops for lack of fuel: any bound at least the length of
    the file reads the same lines. *)
Lemma getlines_fuel (n m : nat) (input : string) :
  (String.length input ≤ n)%nat → (String.length input ≤ m)%nat →
  getlines n input = getlines m input.
Proof.
  revert m input. induction n as [|n IH]; intros m input Hn Hm.
  - destruct input; [by destruct m | cbn in Hn; lia].
  - destruct input as [|c input]; [by destruct m|].
    destruct m as [|m]; [cbn in Hm; lia|].
    cbn [getlines]. pose proof (getline_rest_length c input) as Hrest.
    destruct (getline (String c input)) as [line rest]; cbn in *.
    f_equal. apply IH; lia.
Qed.

(** ** The pass over the collection *)

Lemma virtual_Update_id (c : class) (st : State) : virtual_Update c st = st.
Proof. by destruct c. Qed.

Lemma virtual_Render_frame (c : class) (st : State) :
  s_Objects (virtual_Render c st) = s_Objects st
  ∧ heap (virtual_Render c st) = heap st
  ∧ calls (virtual_Render c st) = calls st.
Proof. by destruct c. Qed.

(** One iteration of the loop on an entry that points to an object. *)
Lemma Tick_entry (l : nat) (c : class) (st : State) :
  heap st !! l = Some c →
  ∃ st2, (st1 ← call_Update (addr l) st; call_Render (addr l) st1) = Some st2
         ∧ calls st2 = calls st ++ [Update_call l; Render_call l]
         ∧ heap st2 = heap st
         ∧ s_Objects st2 = s_Objects st.
Proof.
  intros Hl. cbn. rewrite Hl. cbn. rewrite virtual_Update_id. cbn. rewrite Hl. cbn.
  eexists. split; [reflexivity|].
  destruct (virtual_Render_frame c
              (record_call (Render_call l) (record_call (Update_call l) st)))
    as (-> & -> & ->).
  cbn. by rewrite <- app_assoc.
Qed.

Lemma dynamic_type_heap (e : pointer) (st st' : State) :
  heap st' = heap st → dynamic_type e st' = dynamic_type e st.
Proof. intros H. destruct e; cbn; by rewrite ?H. Qed.

(** C3.  On a collection whose entries all point to objects, the pass runs
    to its end and makes, entry by entry in stored order, the [Update] call
    and then the [Render] call of that entry: the calls it adds to the trace
    are those of the first entry, then those of the second, and so on.  It
    changes neither the heap nor the registry.  (For two entries A, B the
    witness is Update A, Render A, Update B, Render B.) *)
Theorem Tick_call_sequence (coll : list pointer) (st : State) :
  Forall (λ e, is_Some (dynamic_type e st)) coll →
  ∃ st', Tick coll st = Some st'
         ∧ calls st' = calls st ++ concat (map entry_calls coll)
         ∧ heap st' = heap st
         ∧ s_Objects st' = s_Objects st.
Proof.
  revert st. induction coll as [|e rest IH]; intros st Hall.
  - exists st. cbn. by rewrite app_nil_r.
  - apply Forall_cons in Hall as [[c Hc] Hrest].
    destruct e as [|l]; [discriminate Hc|]. cbn in Hc.
    destruct (Tick_entry l c st Hc) as (st2 & Hrun & Hcalls & Hheap & Hreg).
    destruct (IH st2) as (st' & HT & Hcalls' & Hheap' & Hreg').
    { eapply Forall_impl; [exact Hrest|]. intros e' He'. cbn in He'.
      by rewrite (dynamic_type_heap _ _ _ Hheap). }
    exists st'. split_and!.
    + cbn [Tick]. cbn [Tick] in *.
      destruct (call_Update (addr l) st) as [st1|]; [|discriminate Hrun].
      cbn in Hrun |- *. rewrite Hrun. cbn. exact HT.
    + rewrite Hcalls', Hcalls. cbn. by rewrite <- app_assoc.
    + by rewrite Hheap'.
    + by rewrite Hreg'.
Qed.

Lemma Tick_call_sequence_A_B :
  ∃ st', Tick [addr 0; addr 1] loaded_plane_boat.2 = Some st'
         ∧ calls st' = [Update_call 0; Render_call 0; Update_call 1; Render_call 1].
Proof.
  destruct (Tick_call_sequence [addr 0; addr 1] loaded_plane_boat.2)
    as (st' & HT & Hcalls & _).
  - repeat constructor; vm_compute; eauto.
  - exists st'. split; [exact HT | exact Hcalls].
Defined.

(** C7.  A file that cannot be opened, and an empty file, give no line; the
    collection then has no entry, the pass over it succeeds without making
    any call, and [main] ends in the state the three registrations left,
    with nothing constructed and nothing printed. *)
Theorem empty_source_empty_pass (st : State) :
  Load None st = ([], st)
  ∧ read_lines "" = []
  ∧ Load (Some "") st = ([], st)
  ∧ length (Load None st).1 = 0%nat
  ∧ length (Load (Some "") st).1 = 0%nat
  ∧ Tick [] st = Some st
  ∧ main None = Some registered_main
  ∧ main (Some "") = Some registered_main
  ∧ calls registered_main = []
  ∧ heap registered_main = []
  ∧ cout registered_main = "".
Proof. split_and!; reflexivity. Qed.

(** ** The instance counters *)

Lemma invocations_cons (c : class) (cb : CreateObjectCallback)
    (cbs : list CreateObjectCallback) :
  invocations c (cb :: cbs)
  = (if decide (class_of cb = c) then 1 else 0) + invocations c cbs.
Proof.
  unfold invocations. rewrite filter_cons.
  destruct (decide (class_of cb = c)); cbn [length]; lia.
Qed.

Lemma invocations_nonneg (c : class) (cbs : list CreateObjectCallback) :
  0 ≤ invocations c cbs.
Proof. unfold invocations. lia. Qed.

(** C10.  As long as a counter stays within [int], it counts the
    invocations of its class's factory: after any sequence of factory calls
    the counter of class [c] has grown by the number of calls that construct
    a [c].  In particular one call adds exactly one to the counter of its own
    class, and no call changes the counter of another class. *)
Theorem ObjectsCreated_counts_invocations (cbs : list CreateObjectCallback)
    (c : class) (st : State) :
  INT_MIN ≤ ObjectsCreated c st →
  ObjectsCreated c st + invocations c cbs ≤ INT_MAX →
  ObjectsCreated c (invoke_all cbs st) = ObjectsCreated c st + invocations c cbs
  ∧ (∀ cb, class_of cb = c → ObjectsCreated c st < INT_MAX →
           ObjectsCreated c (invoke cb st).2 = ObjectsCreated c st + 1)
  ∧ (∀ cb, class_of cb ≠ c →
           ObjectsCreated c (invoke cb st).2 = ObjectsCreated c st).
Proof.
  intros Hlo Hhi. split_and!.
  - revert st Hlo Hhi. induction cbs as [|cb cbs IH]; intros st Hlo Hhi.
    + cbn. unfold invocations. cbn. lia.
    + pose proof (invocations_nonneg c cbs) as Hnn.
      rewrite invocations_cons in Hhi |- *.
      change (invoke_all (cb :: cbs) st) with (invoke_all cbs (invoke cb st).2).
      destruct (decide (class_of cb = c)) as [<-|Hne].
      * assert (Hstep : ObjectsCreated (class_of cb) (invoke cb st).2
                        = ObjectsCreated (class_of cb) st + 1).
        { rewrite invoke_own_counter. apply int_incr_in_range. lia. }
        rewrite IH; rewrite Hstep; lia.
      * assert (Hstep : ObjectsCreated c (invoke cb st).2 = ObjectsCreated c st)
          by (apply invoke_other_counter; congruence).
        rewrite IH; rewrite Hstep; lia.
  - intros cb <- Hlt. rewrite invoke_own_counter. apply int_incr_in_range. lia.
  - intros cb Hne. apply invoke_other_counter. congruence.
Qed.

Lemma ObjectsCreated_counts_invocations_main :
  ObjectsCreated Plane
    (invoke_all [PlaneCreate; BoatCreate; PlaneCreate] registered_main) = 2
  ∧ ObjectsCreated Boat
      (invoke_all [PlaneCreate; BoatCreate; PlaneCreate] registered_main) = 1
  ∧ ObjectsCreated Ant
      (invoke_all [PlaneCreate; BoatCreate; PlaneCreate] registered_main) = 0.
Proof.
  split_and!.
  - apply (ObjectsCreated_counts_invocations
             [PlaneCreate; BoatCreate; PlaneCreate] Plane registered_main);
      vm_compute; discriminate.
  - apply (ObjectsCreated_counts_invocations
             [PlaneCreate; BoatCreate; PlaneCreate] Boat registered_main);
      vm_compute; discriminate.
  - apply (ObjectsCreated_counts_invocations
             [PlaneCreate; BoatCreate; PlaneCreate] Ant registered_main);
      vm_compute; discriminate.
Defined.

(** ** The registry is only written by registration *)

Lemma call_Update_s_Objects (e : pointer) (st st' : State) :
  call_Update e st = Some st' → s_Objects st' = s_Objects st.
Proof.
  destruct e as [|l]; cbn; [done|].
  destruct (heap st !! l) as [c|]; cbn; [|done].
  intros [= <-]. by rewrite virtual_Update_id.
Qed.

Lemma call_Render_s_Objects (e : pointer) (st st' : State) :
  call_Render e st = Some st' → s_Objects st' = s_Objects st.
Proof.
  destruct e as [|l]; cbn; [done|].
  destruct (heap st !! l) as [c|]; cbn; [|done].
  intros [= <-]. by destruct c.
Qed.

Lemma Tick_s_Objects (coll : list pointer) (st st' : State) :
  Tick coll st = Some st' → s_Objects st' = s_Objects st.
Proof.
  revert st. induction coll as [|e rest IH]; intros st; cbn.
  - by intros [= <-].
  - destruct (call_Update e st) as [st1|] eqn:E1; cbn; [|done].
    destruct (call_Render e st1) as [st2|] eqn:E2; cbn; [|done].
    intros HT. rewrite (IH _ HT), (call_Render_s_Objects _ _ _ E2).
    by apply (call_Update_s_Objects e).
Qed.

(** C9.  [CreateSingleObject] leaves [s_Objects] as it found it, whether the
    type is registered or not.  So does every factory it can call, a whole
    load, and the pass over the collection; the map is written by
    [RegisterObject] and [UnregisterObject] alone, which set and erase the
    one entry they are called for. *)
Theorem CreateSingleObject_preserves_s_Objects (type : string) (st : State) :
  s_Objects (CreateSingleObject type st).2 = s_Objects st
  ∧ (∀ cb : CreateObjectCallback, s_Objects (invoke cb st).2 = s_Objects st)
  ∧ (∀ lines : list string, s_Objects (load_lines lines [] st).2 = s_Objects st)
  ∧ (∀ coll : list pointer,
        from_option s_Objects (s_Objects st) (Tick coll st) = s_Objects st)
  ∧ (∀ cb : CreateObjectCallback,
        s_Objects (RegisterObject type cb st) = <[type := cb]> (s_Objects st))
  ∧ s_Objects (UnregisterObject type st) = delete type (s_Objects st).
Proof.
  split_and!.
  - apply CreateSingleObject_s_Objects.
  - intros cb. apply invoke_s_Objects.
  - intros lines. apply load_lines_s_Objects.
  - intros coll. destruct (Tick coll st) as [st'|] eqn:E; cbn; [|done].
    by apply (Tick_s_Objects coll).
  - done.
  - done.
Qed.

(** * Further properties of the program *)

(** ** Strings *)

Lemma append_cons (c : Ascii.ascii) (s t : string) :
  String c s +:+ t = String c (s +:+ t).
Proof. done. Qed.

Lemma append_nil_r (s : string) : s +:+ "" = s.
Proof. induction s as [|c s IH]; [done|]. by rewrite append_cons, IH. Qed.

Lemma append_assoc (s t u : string) : (s +:+ t) +:+ u = s +:+ t +:+ u.
Proof. induction s as [|c s IH]; [done|]. by rewrite !append_cons, IH. Qed.

Lemma length_append (s t : string) :
  String.length (s +:+ t) = (String.length s + String.length t)%nat.
Proof. induction s as [|c s IH]; [done|]. rewrite append_cons. cbn. by rewrite IH. Qed.

Lemma endl_append (t : string) : endl +:+ t = String newline t.
Proof. done. Qed.

Lemma append_String_nonempty (s : string) (d : Ascii.ascii) (t : string) :
  ∃ c u, s +:+ String d t = String c u.
Proof. destruct s as [|c s]; eexists _, _; reflexivity. Qed.

Lemma contains_newline_append (s t : string) :
  contains_newline (s +:+ t) = contains_newline s || contains_newline t.
Proof.
  induction s as [|c s IH]; [done|].
  rewrite append_cons. cbn. by rewrite IH, orb_assoc.
Qed.

Lemma ends_with_newline_cons (c d : Ascii.ascii) (s : string) :
  ends_with_newline (String c (String d s)) = ends_with_newline (String d s).
Proof. done. Qed.

Lemma ends_with_newline_append (s : string) (d : Ascii.ascii) (t : string) :
  ends_with_newline (s +:+ String d t) = ends_with_newline (String d t).
Proof.
  induction s as [|c s IH]; [done|].
  rewrite append_cons. destruct s as [|c' s].
  - change ("" +:+ String d t) with (String d t). apply ends_with_newline_cons.
  - rewrite append_cons in IH |- *. by rewrite ends_with_newline_cons.
Qed.

Lemma ends_with_newline_contains (s : string) :
  ends_with_newline s = true → contains_newline s = true.
Proof.
  induction s as [|c s IH]; [done|]. destruct s as [|d s].
  - cbn. intros ->. done.
  - rewrite ends_with_newline_cons. intros H.
    change (contains_newline (String c (String d s)))
      with (Ascii.eqb c newline || contains_newline (String d s)).
    rewrite (IH H). apply orb_true_r.
Qed.

(** ** One [getline] *)

Lemma getline_append (line rest : string) :
  contains_newline line = false →
  getline (line +:+ String newline rest) = (line, rest).
Proof.
  induction line as [|c line IH]; intros Hn.
  - done.
  - cbn in Hn. apply orb_false_iff in Hn as [Hc Hline].
    rewrite append_cons. cbn [getline]. by rewrite Hc, IH.
Qed.

Lemma getline_no_newline (line : string) :
  contains_newline line = false → getline line = (line, "").
Proof.
  induction line as [|c line IH]; intros Hn; [done|].
  cbn in Hn. apply orb_false_iff in Hn as [Hc Hline].
  cbn [getline]. by rewrite Hc, IH.
Qed.

Lemma getline_split (input : string) :
  contains_newline (getline input).1 = false
  ∧ (if contains_newline input
     then input = (getline input).1 +:+ String newline (getline input).2
     else getline input = (input, "")).
Proof.
  induction input as [|c input [IH1 IH2]]; [done|].
  cbn [getline contains_newline].
  destruct (Ascii.eqb c newline) eqn:Hc.
  - apply Ascii.eqb_eq in Hc as ->. done.
  - destruct (getline input) as [line rest] eqn:Hg. cbn in *.
    rewrite Hc. split; [done|].
    destruct (contains_newline input).
    + rewrite append_cons. by f_equal.
    + by injection IH2 as -> ->.
Qed.

(** X1.  One [getline] splits the unread text at its first newline: the
    line it gives has no newline, and the text is either that line, a
    newline and what is left unread, or (no newline left) the line itself
    with nothing left unread.  On a text that is not empty it consumes at
    least one character, so the reading loop ends. *)
Theorem getline_splits_at_first_newline (input : string) :
  contains_newline (getline input).1 = false
  ∧ (if contains_newline input
     then input = (getline input).1 +:+ String newline (getline input).2
     else getline input = (input, ""))
  ∧ (input = "" ∨ (String.length (getline input).2 < String.length input)%nat).
Proof.
  destruct (getline_split input) as [H1 H2]. split_and!; [done..|].
  destruct input as [|c input]; [by left|]. right.
  pose proof (getline_rest_length c input). cbn [String.length]. lia.
Qed.

(** ** The lines of a file *)

Lemma getlines_nil (n : nat) : getlines n "" = [].
Proof. by destruct n. Qed.

Lemma getlines_S (n : nat) (c : Ascii.ascii) (input : string) :
  getlines (S n) (String c input)
  = (getline (String c input)).1 :: getlines n (getline (String c input)).2.
Proof. cbn [getlines]. by destruct (getline (String c input)). Qed.

Lemma getlines_unlines (n : nat) (lines : list string) (last : string) :
  Forall (λ l, contains_newline l = false) lines →
  contains_newline last = false →
  (String.length (unlines lines +:+ last) ≤ n)%nat →
  getlines n (unlines lines +:+ last)
  = lines ++ (if decide (last = "") then [] else [last]).
Proof.
  intros Hlines Hlast. revert n.
  induction Hlines as [|line lines Hline Hlines IH]; intros n Hn.
  - change (unlines [] +:+ last) with last in *. cbn [app].
    destruct last as [|c last]; [by rewrite getlines_nil|].
    destruct n as [|n]; [cbn in Hn; lia|].
    rewrite getlines_S, (getline_no_newline _ Hlast). cbn.
    by rewrite getlines_nil.
  - cbn [unlines] in *.
    rewrite !append_assoc, endl_append in *.
    rewrite length_append in Hn. cbn [String.length] in Hn.
    destruct n as [|n]; [lia|].
    destruct (append_String_nonempty line newline (unlines lines +:+ last))
      as (c & s & Hs). rewrite Hs, getlines_S, <- Hs.
    rewrite (getline_append _ _ Hline). cbn [fst snd app].
    f_equal. apply IH. lia.
Qed.

(** X2.  Reading back a file written one line per newline gives the lines
    written, provided no line has a newline in it; a last line with no
    newline after it is read like the others. *)
Theorem read_lines_unlines (lines : list string) (last : string) :
  Forall (λ l, contains_newline l = false) lines →
  contains_newline last = false →
  read_lines (unlines lines +:+ last)
  = lines ++ (if decide (last = "") then [] else [last]).
Proof. intros Hlines Hlast. by apply getlines_unlines. Qed.

Lemma read_lines_unlines_witness :
  read_lines (unlines ["plane"; ""; "boat"] +:+ "ant") = ["plane"; ""; "boat"; "ant"].
Proof.
  apply (read_lines_unlines ["plane"; ""; "boat"] "ant").
  - repeat constructor.
  - reflexivity.
Defined.

Lemma terminated_append_newline (line rest : string) :
  terminated (line +:+ String newline rest) = line +:+ endl +:+ terminated rest.
Proof.
  unfold terminated. rewrite ends_with_newline_append.
  destruct rest as [|d rest].
  - cbn [ends_with_newline]. by rewrite Ascii.eqb_refl.
  - rewrite ends_with_newline_cons.
    destruct (ends_with_newline (String d rest)); [done|].
    destruct (append_String_nonempty line newline (String d rest))
      as (c & s & Hs). rewrite Hs, <- Hs.
    rewrite append_assoc. done.
Qed.

Lemma getlines_terminated (n : nat) (input : string) :
  (String.length input ≤ n)%nat →
  unlines (getlines n input) = terminated input
  ∧ Forall (λ l, contains_newline l = false) (getlines n input).
Proof.
  revert input. induction n as [|n IH]; intros input Hn.
  - destruct input; [done | cbn in Hn; lia].
  - destruct input as [|c input]; [done|].
    rewrite getlines_S.
    pose proof (getline_rest_length c input) as Hrest.
    destruct (getline_split (String c input)) as [Hline Hsplit].
    destruct (IH (getline (String c input)).2) as [IHu IHf]; [cbn in Hn; lia|].
    split; [|by constructor].
    cbn [unlines]. rewrite IHu.
    destruct (contains_newline (String c input)) eqn:Hc.
    + rewrite Hsplit at 3. by rewrite terminated_append_newline.
    + rewrite Hsplit. cbn [fst snd]. unfold terminated at 2.
      destruct (ends_with_newline (String c input)) eqn:He.
      { apply ends_with_newline_contains in He. congruence. }
      done.
Qed.

(** X3.  No line read has a newline in it, and writing the lines read back,
    one per newline, gives the file again, with a final newline added when
    the file is not empty and lacks one. *)
Theorem unlines_read_lines (input : string) :
  unlines (read_lines input) = terminated input
  ∧ Forall (λ l, contains_newline l = false) (read_lines input).
Proof. by apply getlines_terminated. Qed.

(** ** What a load does to the state *)

Lemma invoke_all_cons (cb : CreateObjectCallback) (cbs : list CreateObjectCallback)
    (st : State) :
  invoke_all (cb :: cbs) st = invoke_all cbs (invoke cb st).2.
Proof. done. Qed.

Lemma invoke_all_frame (cbs : list CreateObjectCallback) (st : State) :
  heap (invoke_all cbs st) = heap st ++ map class_of cbs
  ∧ s_Objects (invoke_all cbs st) = s_Objects st
  ∧ cout (invoke_all cbs st) = cout st
  ∧ calls (invoke_all cbs st) = calls st.
Proof.
  revert st. induction cbs as [|cb cbs IH]; intros st.
  - cbn. by rewrite app_nil_r.
  - rewrite invoke_all_cons. destruct (IH (invoke cb st).2) as (-> & -> & -> & ->).
    rewrite invoke_heap, invoke_s_Objects, invoke_cout, invoke_calls.
    cbn. by rewrite <- app_assoc.
Qed.

Lemma load_lines_state (lines : list string) (st : State) :
  (load_lines lines [] st).2 = invoke_all (factories_of (s_Objects st) lines) st.
Proof.
  revert st. induction lines as [|line rest IH]; intros st; [done|].
  rewrite load_lines_cons. cbn [snd]. rewrite IH, CreateSingleObject_s_Objects.
  unfold factories_of, CreateSingleObject. cbn [omap list_omap].
  by destruct (s_Objects st !! line).
Qed.

Lemma load_lines_is_factory_calls_aux (lines : list string) (st : State) :
  heap (load_lines lines [] st).2
  = heap st ++ map class_of (factories_of (s_Objects st) lines)
  ∧ s_Objects (load_lines lines [] st).2 = s_Objects st
  ∧ cout (load_lines lines [] st).2 = cout st
  ∧ calls (load_lines lines [] st).2 = calls st.
Proof. rewrite load_lines_state. apply invoke_all_frame. Qed.

(** X4.  A load changes the state exactly as calling, in line order, the
    factories registered for its lines would, a line with no entry changing
    nothing: the heap grows by one object per registered line, of the
    registered class and in line order, and the registry, the output and the
    call trace stay as they were. *)
Theorem load_lines_is_factory_calls (lines : list string) (st : State) :
  (load_lines lines [] st).2 = invoke_all (factories_of (s_Objects st) lines) st
  ∧ heap (load_lines lines [] st).2
    = heap st ++ map class_of (factories_of (s_Objects st) lines)
  ∧ s_Objects (load_lines lines [] st).2 = s_Objects st
  ∧ cout (load_lines lines [] st).2 = cout st
  ∧ calls (load_lines lines [] st).2 = calls st.
Proof.
  rewrite load_lines_state. split; [done|]. apply invoke_all_frame.
Qed.

Lemma factories_of_cons (m : gmap string CreateObjectCallback) (line : string)
    (rest : list string) :
  factories_of m (line :: rest)
  = match m !! line with
    | Some cb => cb :: factories_of m rest
    | None => factories_of m rest
    end.
Proof. unfold factories_of. cbn. by destruct (m !! line). Qed.

(** The entry a load makes for line [i]: null for a type with no entry, and
    else the cell after those the earlier registered lines took. *)
Lemma load_lines_lookup (lines : list string) (st : State) (i : nat) (id : string) :
  lines !! i = Some id →
  (load_lines lines [] st).1 !! i
  = Some (match s_Objects st !! id with
          | Some _ => addr (length (heap st)
                            + length (factories_of (s_Objects st) (take i lines)))
          | None => nullptr
          end).
Proof.
  revert st i. induction lines as [|line rest IH]; intros st i Hi; [done|].
  rewrite load_lines_cons. cbn [fst]. destruct i as [|i].
  - cbn in Hi. injection Hi as ->. cbn. unfold CreateSingleObject.
    destruct (s_Objects st !! id) as [cb|]; [|done].
    rewrite invoke_pointer. do 2 f_equal. cbn. lia.
  - cbn in Hi. cbn [lookup list_lookup take].
    change ((?x :: ?l) !! S i) with (l !! i).
    rewrite (IH _ _ Hi), CreateSingleObject_s_Objects, factories_of_cons.
    destruct (s_Objects st !! id) as [cb'|]; [|done].
    do 2 f_equal. unfold CreateSingleObject.
    destruct (s_Objects st !! line) as [cb|]; [|done].
    rewrite invoke_heap, length_app. cbn. lia.
Qed.

Lemma factories_of_take_le (m : gmap string CreateObjectCallback) (lines : list string)
    (i j : nat) :
  (i ≤ j)%nat →
  (length (factories_of m (take i lines)) ≤ length (factories_of m (take j lines)))%nat.
Proof.
  revert i j. induction lines as [|line rest IH]; intros i j Hij.
  - by rewrite !take_nil.
  - destruct i as [|i]; [cbn; lia|]. destruct j as [|j]; [lia|].
    cbn [take]. rewrite !factories_of_cons.
    specialize (IH i j ltac:(lia)). destruct (m !! line); cbn; lia.
Qed.

Lemma factories_of_take_S (m : gmap string CreateObjectCallback) (lines : list string)
    (i : nat) (id : string) :
  lines !! i = Some id → is_Some (m !! id) →
  length (factories_of m (take (S i) lines))
  = S (length (factories_of m (take i lines))).
Proof.
  revert i. induction lines as [|line rest IH]; intros i Hi Hreg; [done|].
  destruct i as [|i].
  - cbn in Hi. injection Hi as ->. cbn [take]. rewrite factories_of_cons, take_0.
    destruct Hreg as [cb ->]. done.
  - cbn in Hi. change (take (S (S i)) (line :: rest)) with (line :: take (S i) rest).
    change (take (S i) (line :: rest)) with (line :: take i rest).
    rewrite !factories_of_cons.
    destruct (m !! line); cbn [length]; by rewrite (IH _ Hi Hreg).
Qed.

(** X5.  The collection a load builds has a null entry exactly at the lines
    whose type has no entry.  Its other entries point to objects made by
    this load (cells that held nothing before it), and no two of them point
    to the same object. *)
Theorem load_lines_entries (lines : list string) (st : State) :
  (∀ i, (load_lines lines [] st).1 !! i = Some nullptr
        ↔ ∃ id, lines !! i = Some id ∧ s_Objects st !! id = None)
  ∧ (∀ i l, (load_lines lines [] st).1 !! i = Some (addr l) →
            heap st !! l = None
            ∧ is_Some (heap (load_lines lines [] st).2 !! l))
  ∧ (∀ i j l, (load_lines lines [] st).1 !! i = Some (addr l) →
              (load_lines lines [] st).1 !! j = Some (addr l) → i = j).
Proof.
  assert (Hline : ∀ i e, (load_lines lines [] st).1 !! i = Some e →
                         ∃ id, lines !! i = Some id).
  { intros i e He. apply lookup_lt_Some in He. rewrite load_lines_length in He.
    by apply lookup_lt_is_Some_2. }
  assert (Haddr : ∀ i l, (load_lines lines [] st).1 !! i = Some (addr l) →
            ∃ id, lines !! i = Some id ∧ is_Some (s_Objects st !! id)
                  ∧ l = (length (heap st)
                         + length (factories_of (s_Objects st) (take i lines)))%nat).
  { intros i l He. destruct (Hline _ _ He) as [id Hid]. exists id.
    rewrite (load_lines_lookup _ _ _ _ Hid) in He.
    destruct (s_Objects st !! id); [|done]. by injection He as <-. }
  split_and!.
  - intros i. split.
    + intros He. destruct (Hline _ _ He) as [id Hid]. exists id. split; [done|].
      rewrite (load_lines_lookup _ _ _ _ Hid) in He.
      by destruct (s_Objects st !! id).
    + intros (id & Hid & Hnone). by rewrite (load_lines_lookup _ _ _ _ Hid), Hnone.
  - intros i l He. destruct (Haddr _ _ He) as (id & Hid & Hreg & ->). split.
    + apply lookup_ge_None_2. lia.
    + apply lookup_lt_is_Some_2.
      destruct (load_lines_is_factory_calls_aux lines st) as [-> _].
      rewrite length_app, length_map.
      pose proof (factories_of_take_S _ _ _ _ Hid Hreg) as HS.
      pose proof (factories_of_take_le (s_Objects st) lines (S i) (length lines)
                    ltac:(apply lookup_lt_Some in Hid; lia)) as Hle.
      rewrite firstn_all in Hle. lia.
  - intros i j l Hi Hj.
    destruct (Haddr _ _ Hi) as (idi & Hidi & Hregi & Hli).
    destruct (Haddr _ _ Hj) as (idj & Hidj & Hregj & Hlj).
    pose proof (factories_of_take_S _ _ _ _ Hidi Hregi) as HSi.
    pose proof (factories_of_take_S _ _ _ _ Hidj Hregj) as HSj.
    destruct (Nat.lt_trichotomy i j) as [Hlt|[->|Hgt]]; [|done|].
    + pose proof (factories_of_take_le (s_Objects st) lines (S i) j ltac:(lia)). lia.
    + pose proof (factories_of_take_le (s_Objects st) lines (S j) i ltac:(lia)). lia.
Qed.

(** ** What a pass does to the state *)

Lemma rendered_heap (coll : list pointer) (st st' : State) :
  heap st' = heap st → rendered coll st' = rendered coll st.
Proof.
  intros H. unfold rendered. f_equal.
  induction coll as [|e rest IH]; [done|].
  cbn. by rewrite IH, (dynamic_type_heap _ _ _ H).
Qed.

Lemma virtual_Render_text (c : class) (st : State) :
  virtual_Render c st = set_cout (cout st +:+ Render_text c +:+ endl) st.
Proof. by destruct c. Qed.

Lemma rendered_cons (l : nat) (c : class) (rest : list pointer) (st : State) :
  heap st !! l = Some c →
  rendered (addr l :: rest) st = Render_text c +:+ endl +:+ rendered rest st.
Proof. intros H. unfold rendered. cbn. by rewrite H. Qed.

Lemma cout_after_Tick (coll : list pointer) (st : State) :
  cout (after_Tick coll st) = cout st +:+ rendered coll st.
Proof. done. Qed.

Lemma calls_after_Tick (coll : list pointer) (st : State) :
  calls (after_Tick coll st) = calls st ++ concat (map entry_calls coll).
Proof. done. Qed.

(** A pass over entries that all point to objects ends in [after_Tick]. *)
Lemma Tick_Some (coll : list pointer) (st : State) :
  Forall (λ e, is_Some (dynamic_type e st)) coll →
  Tick coll st = Some (after_Tick coll st).
Proof.
  revert st. induction coll as [|e rest IH]; intros st Hall.
  - cbn. f_equal. apply State_eq; cbn; try done.
    + by rewrite append_nil_r.
    + by rewrite app_nil_r.
  - apply Forall_cons in Hall as [[c Hc] Hrest].
    destruct e as [|l]; [discriminate Hc|]. cbn in Hc.
    cbn [Tick call_Update]. rewrite Hc. cbn [mbind option_bind].
    rewrite virtual_Update_id. cbn [call_Render record_call set_calls heap].
    rewrite Hc. cbn [mbind option_bind]. rewrite virtual_Render_text.
    rewrite IH.
    + f_equal. apply State_eq; try done.
      * rewrite !cout_after_Tick, (rendered_heap rest st) by done.
        rewrite (rendered_cons _ _ _ _ Hc). cbn [cout set_cout].
        by rewrite !append_assoc.
      * rewrite !calls_after_Tick. cbn. by rewrite <- !app_assoc.
    + eapply Forall_impl; [exact Hrest|]. intros e' He'. cbn in He'.
      by rewrite (dynamic_type_heap e' st).
Qed.

(** A pass that meets an entry pointing to no object is undefined. *)
Lemma Tick_None (coll : list pointer) (st : State) :
  Exists (λ e, dynamic_type e st = None) coll → Tick coll st = None.
Proof.
  revert st. induction coll as [|e rest IH]; intros st Hex.
  - by apply Exists_nil in Hex.
  - destruct (dynamic_type e st) as [c|] eqn:Hc.
    + apply Exists_cons in Hex as [He|Hrest]; [congruence|].
      destruct e as [|l]; [discriminate Hc|]. cbn in Hc.
      cbn [Tick call_Update]. rewrite Hc. cbn [mbind option_bind].
      rewrite virtual_Update_id. cbn [call_Render record_call set_calls heap].
      rewrite Hc. cbn [mbind option_bind]. apply IH.
      eapply Exists_impl; [exact Hrest|]. intros e' He'. cbn in He'.
      rewrite <- He'. apply dynamic_type_heap. by destruct c.
    + destruct e as [|l]; [done|]. cbn in Hc. cbn [Tick call_Update].
      by rewrite Hc.
Qed.

Lemma Tick_defined_iff_aux (coll : list pointer) (st : State) :
  Forall (λ e, is_Some (dynamic_type e st)) coll
  ∨ Exists (λ e, dynamic_type e st = None) coll.
Proof.
  induction coll as [|e rest [IH|IH]]; [by left | |].
  - destruct (dynamic_type e st) eqn:E.
    + left. constructor; [by rewrite E | done].
    + right. by left.
  - right. by right.
Qed.

(** X6.  The pass is defined exactly on collections whose entries all point
    to objects: one null (or wild) entry anywhere makes the whole pass
    undefined, and without one the pass ends having changed only the output
    and the call trace. *)
Theorem Tick_defined_iff (coll : list pointer) (st : State) :
  (is_Some (Tick coll st) ↔ Forall (λ e, is_Some (dynamic_type e st)) coll)
  ∧ (Tick coll st = None ↔ Exists (λ e, dynamic_type e st = None) coll)
  ∧ (nullptr ∈ coll → Tick coll st = None)
  ∧ (∀ st', Tick coll st = Some st' → st' = after_Tick coll st).
Proof.
  pose proof (Tick_defined_iff_aux coll st) as Hdec.
  assert (Hexcl : Forall (λ e, is_Some (dynamic_type e st)) coll →
                  Exists (λ e, dynamic_type e st = None) coll → False).
  { rewrite Forall_forall, Exists_exists. intros HF (e & He & Hn).
    specialize (HF e He). rewrite Hn in HF. by destruct HF. }
  split_and!.
  - split.
    + intros HS. destruct Hdec as [HF|HE]; [done|].
      rewrite (Tick_None _ _ HE) in HS. by destruct HS.
    + intros HF. by rewrite (Tick_Some _ _ HF).
  - split.
    + intros HN. destruct Hdec as [HF|HE]; [|done].
      by rewrite (Tick_Some _ _ HF) in HN.
    + apply Tick_None.
  - intros Hin. apply Tick_None, Exists_exists. by exists nullptr.
  - intros st' HT. destruct Hdec as [HF|HE].
    + rewrite (Tick_Some _ _ HF) in HT. by injection HT.
    + by rewrite (Tick_None _ _ HE) in HT.
Qed.

(** X7.  A pass prints, for each entry in stored order, the text of the
    entry's class and a newline, after what was printed before.  It changes
    no counter, no object and no registration. *)
Theorem Tick_output (coll : list pointer) (st : State) :
  Forall (λ e, is_Some (dynamic_type e st)) coll →
  ∃ st', Tick coll st = Some st'
         ∧ cout st' = cout st
                      +:+ unlines (omap (λ e, Render_text <$> dynamic_type e st) coll)
         ∧ (∀ c, ObjectsCreated c st' = ObjectsCreated c st)
         ∧ heap st' = heap st
         ∧ s_Objects st' = s_Objects st.
Proof.
  intros HF. exists (after_Tick coll st). split; [by apply Tick_Some|].
  split_and!; [done | by intros [] | done | done].
Qed.

Lemma Tick_output_witness :
  ∃ st', Tick loaded_plane_boat.1 loaded_plane_boat.2 = Some st'
         ∧ cout st' = "plane" +:+ endl +:+ "boat" +:+ endl.
Proof.
  destruct (Tick_output loaded_plane_boat.1 loaded_plane_boat.2)
    as (st' & HT & Hout & _).
  - repeat constructor; vm_compute; eauto.
  - exists st'. split; [exact HT|]. rewrite Hout. vm_compute. reflexivity.
Defined.

(** X8.  The pass over a collection in two parts is the pass over the first
    part followed by the pass over the second, undefined as soon as either
    is; and a pass that ran to its end can be run again from the state it
    left (the loop of [main] could be repeated). *)
Theorem Tick_app (coll1 coll2 : list pointer) (st : State) :
  Tick (coll1 ++ coll2) st = (Tick coll1 st ≫= Tick coll2)
  ∧ (∀ st', Tick coll1 st = Some st' → is_Some (Tick coll1 st')).
Proof.
  split.
  - revert st. induction coll1 as [|e rest IH]; intros st; [done|].
    cbn [app Tick].
    destruct (call_Update e st) as [st1|]; cbn [mbind option_bind]; [|done].
    destruct (call_Render e st1) as [st2|]; cbn [mbind option_bind]; [|done].
    apply IH.
  - intros st' HT.
    destruct (Tick_defined_iff_aux coll1 st) as [HF|HE].
    + rewrite (Tick_Some _ _ HF) in HT. injection HT as <-.
      rewrite Tick_Some; [done|].
      eapply Forall_impl; [exact HF|]. intros e He. cbn in He.
      by rewrite (dynamic_type_heap e st).
    + by rewrite (Tick_None _ _ HE) in HT.
Qed.

(** ** A load followed by a pass *)

Lemma factories_of_app (m : gmap string CreateObjectCallback) (l1 l2 : list string) :
  factories_of m (l1 ++ l2) = factories_of m l1 ++ factories_of m l2.
Proof.
  induction l1 as [|x l1 IH]; [done|].
  cbn [app]. rewrite !factories_of_cons, IH. by destruct (m !! x).
Qed.

(** The class each entry of a loaded collection points to, registered line
    or not. *)
Lemma load_lines_classes (lines : list string) (st : State) :
  classes_of (load_lines lines [] st).1 (load_lines lines [] st).2
  = map (λ id, class_of <$> s_Objects st !! id) lines.
Proof.
  apply list_eq. intros i. unfold classes_of. rewrite !list_lookup_fmap.
  destruct (lines !! i) as [id|] eqn:Hid.
  - rewrite (load_lines_lookup _ _ _ _ Hid). cbn [fmap option_fmap option_map].
    f_equal. destruct (s_Objects st !! id) as [cb|] eqn:Hcb; [|done].
    cbn [dynamic_type]. destruct (load_lines_is_factory_calls_aux lines st) as [-> _].
    rewrite lookup_app_r by lia.
    replace (length (heap st) + length (factories_of (s_Objects st) (take i lines))
             - length (heap st))%nat
      with (length (factories_of (s_Objects st) (take i lines))) by lia.
    rewrite <- (take_drop_middle _ _ _ Hid) at 2.
    rewrite factories_of_app, factories_of_cons, Hcb, fmap_app.
    rewrite lookup_app_r by (rewrite length_fmap; lia).
    rewrite length_fmap, Nat.sub_diag. done.
  - apply lookup_ge_None in Hid. rewrite lookup_ge_None_2; [done|].
    by rewrite load_lines_length.
Qed.

Lemma classes_of_valid (coll : list pointer) (st : State) (cs : list (option class)) :
  classes_of coll st = cs →
  (Forall (λ e, is_Some (dynamic_type e st)) coll ↔ Forall is_Some cs).
Proof. intros <-. unfold classes_of. by rewrite Forall_fmap. Qed.

Lemma rendered_classes (coll : list pointer) (st : State) :
  rendered coll st = unlines (omap (fmap Render_text) (classes_of coll st)).
Proof.
  unfold rendered, classes_of. f_equal.
  induction coll as [|e rest IH]; [done|]. cbn. by rewrite IH.
Qed.

Lemma Exists_not_Forall_iff_aux (lines : list string) (st : State) :
  Exists (λ id, ¬ is_Some (s_Objects st !! id)) lines
  ↔ ¬ Forall (λ id, is_Some (s_Objects st !! id)) lines.
Proof.
  split.
  - apply Exists_not_Forall.
  - apply not_Forall_Exists. intros id. apply _.
Qed.

Lemma load_then_Tick_defined_iff_aux (lines : list string) (st : State) :
  is_Some (Tick (load_lines lines [] st).1 (load_lines lines [] st).2)
  ↔ Forall (λ id, is_Some (s_Objects st !! id)) lines.
Proof.
  pose proof (load_lines_classes lines st) as Hcl.
  apply classes_of_valid in Hcl.
  assert (Hreg : Forall is_Some (map (λ id, class_of <$> s_Objects st !! id) lines)
                 ↔ Forall (λ id, is_Some (s_Objects st !! id)) lines).
  { rewrite Forall_fmap. apply Forall_proper; [|done].
    intros id. cbn. by rewrite fmap_is_Some. }
  rewrite <- Hreg, <- Hcl. split.
  - intros HS. destruct (Tick_defined_iff_aux (load_lines lines [] st).1
                           (load_lines lines [] st).2) as [HF|HE]; [done|].
    rewrite (Tick_None _ _ HE) in HS. by destruct HS.
  - intros HF. by rewrite (Tick_Some _ _ HF).
Qed.

(** X9.  Loading a sequence of lines and then running the pass over the
    collection is defined exactly when every line names a registered type:
    one unknown (or blank) line makes the run undefined, since its null entry
    is called through. *)
Theorem load_then_Tick_defined_iff (lines : list string) (st : State) :
  (is_Some (Tick (load_lines lines [] st).1 (load_lines lines [] st).2)
   ↔ Forall (λ id, is_Some (s_Objects st !! id)) lines)
  ∧ (Tick (load_lines lines [] st).1 (load_lines lines [] st).2 = None
     ↔ Exists (λ id, s_Objects st !! id = None) lines)
  ∧ (Tick (load_lines lines [] st).1 (load_lines lines [] st).2 = None
     ↔ nullptr ∈ (load_lines lines [] st).1).
Proof.
  pose proof (load_then_Tick_defined_iff_aux lines st) as Hiff.
  assert (Hex : Exists (λ id, s_Objects st !! id = None) lines
                ↔ ¬ Forall (λ id, is_Some (s_Objects st !! id)) lines).
  { rewrite <- Exists_not_Forall_iff_aux. apply Exists_proper; [|done].
    intros id. cbn. rewrite eq_None_not_Some. done. }
  assert (Hnone : Tick (load_lines lines [] st).1 (load_lines lines [] st).2 = None
                  ↔ Exists (λ id, s_Objects st !! id = None) lines).
  { rewrite Hex, <- Hiff, eq_None_not_Some. done. }
  split_and!; [exact Hiff | exact Hnone |].
  rewrite Hnone, Exists_exists, list_elem_of_lookup. split.
  - intros (id & Hin & Hn). apply list_elem_of_lookup in Hin as [i Hi].
    exists i. by rewrite (load_lines_lookup _ _ _ _ Hi), Hn.
  - intros [i Hi]. assert (Hlt := lookup_lt_Some _ _ _ Hi).
    rewrite load_lines_length in Hlt.
    apply lookup_lt_is_Some_2 in Hlt as [id Hid]. exists id. split.
    + apply list_elem_of_lookup. eauto.
    + rewrite (load_lines_lookup _ _ _ _ Hid) in Hi.
      by destruct (s_Objects st !! id).
Qed.

(** ** The program *)

Lemma registered_main_lookup (id : string) :
  s_Objects registered_main !! id
  = if decide ("ant" = id) then Some AntCreate
    else if decide ("boat" = id) then Some BoatCreate
    else if decide ("plane" = id) then Some PlaneCreate
    else None.
Proof.
  unfold registered_main. cbn [RegisterObject set_s_Objects s_Objects initial].
  by rewrite !lookup_insert, lookup_empty.
Qed.

Lemma registered_main_known (id : string) :
  is_Some (s_Objects registered_main !! id) ↔ id ∈ ["plane"; "boat"; "ant"].
Proof.
  rewrite registered_main_lookup, !elem_of_cons, elem_of_nil.
  repeat case_decide; subst; split; intros Hx; eauto.
  - by destruct Hx.
  - destruct Hx as [->|[->|[->|[]]]]; done.
Qed.

(** In [main] each type is registered under the text its class renders. *)
Lemma registered_main_text (id : string) (cb : CreateObjectCallback) :
  s_Objects registered_main !! id = Some cb → Render_text (class_of cb) = id.
Proof.
  rewrite registered_main_lookup.
  repeat case_decide; subst; intros [= <-] || intros [=]; done.
Qed.

Lemma registered_main_rendered (lines : list string) :
  Forall (λ id, id ∈ ["plane"; "boat"; "ant"]) lines →
  omap (fmap Render_text)
       (map (λ id, class_of <$> s_Objects registered_main !! id) lines) = lines.
Proof.
  intros Hall. induction Hall as [|id rest Hid _ IH]; [done|].
  apply registered_main_known in Hid as [cb Hcb].
  cbn [map]. rewrite Hcb. cbn [omap list_omap fmap option_fmap option_map].
  by rewrite IH, (registered_main_text _ _ Hcb).
Qed.

(** X10.  On a file it can open, [main] has a defined run exactly when the
    lines of the file are all one of plane, boat, ant.  It then prints the file back line by line, that is the file
    itself with a final newline added if it lacked one, and leaves one object
    per line on the heap. *)
Theorem main_prints_the_file (content : string) :
  (is_Some (main (Some content))
   ↔ Forall (λ id, id ∈ ["plane"; "boat"; "ant"]) (read_lines content))
  ∧ (∀ st, main (Some content) = Some st →
           cout st = terminated content
           ∧ length (heap st) = length (read_lines content)
           ∧ s_Objects st = s_Objects registered_main).
Proof.
  unfold main, Load.
  destruct (load_lines (read_lines content) [] registered_main) as [coll st1] eqn:HL.
  assert (Hcoll : coll = (load_lines (read_lines content) [] registered_main).1)
    by by rewrite HL.
  assert (Hst1 : st1 = (load_lines (read_lines content) [] registered_main).2)
    by by rewrite HL.
  assert (Hiff : is_Some (Tick coll st1)
                 ↔ Forall (λ id, id ∈ ["plane"; "boat"; "ant"]) (read_lines content)).
  { rewrite Hcoll, Hst1, load_then_Tick_defined_iff_aux.
    apply Forall_proper; [|done]. intros id. apply registered_main_known. }
  split; [exact Hiff|].
  intros st HT. assert (Hknown := proj1 Hiff (ex_intro _ st HT)).
  destruct (Tick_defined_iff_aux coll st1) as [HF|HE];
    [|by rewrite (Tick_None _ _ HE) in HT].
  rewrite (Tick_Some _ _ HF) in HT. injection HT as <-.
  destruct (load_lines_is_factory_calls_aux (read_lines content) registered_main)
    as (Hheap & Hreg & Hcout & _).
  rewrite <- Hst1 in Hheap, Hreg, Hcout.
  split_and!.
  - rewrite cout_after_Tick, Hcout, rendered_classes, Hcoll, Hst1.
    rewrite load_lines_classes, (registered_main_rendered _ Hknown).
    apply (getlines_terminated _ content). done.
  - change (heap (after_Tick coll st1)) with (heap st1).
    pose proof (load_lines_classes (read_lines content) registered_main) as Hcl.
    rewrite <- Hcoll, <- Hst1 in Hcl.
    rewrite Hheap, length_app, length_fmap.
    change (length (heap registered_main)) with 0%nat. rewrite Nat.add_0_l.
    clear -Hknown. induction Hknown as [|id rest Hid _ IH]; [done|].
    rewrite factories_of_cons. apply registered_main_known in Hid as [cb Hcb].
    rewrite Hcb. cbn [length]. by rewrite IH.
  - exact Hreg.
Qed.

(** ** The counters after a run *)

Lemma invoke_all_counter (cbs : list CreateObjectCallback) (c : class) (st : State) :
  INT_MIN ≤ ObjectsCreated c st →
  ObjectsCreated c st + invocations c cbs ≤ INT_MAX →
  ObjectsCreated c (invoke_all cbs st) = ObjectsCreated c st + invocations c cbs.
Proof.
  revert st. induction cbs as [|cb cbs IH]; intros st Hlo Hhi.
  - unfold invocations. cbn. lia.
  - pose proof (invocations_nonneg c cbs) as Hnn.
    rewrite invocations_cons in Hhi |- *. rewrite invoke_all_cons.
    destruct (decide (class_of cb = c)) as [<-|Hne].
    + assert (Hstep : ObjectsCreated (class_of cb) (invoke cb st).2
                      = ObjectsCreated (class_of cb) st + 1).
      { rewrite invoke_own_counter. apply int_incr_in_range. lia. }
      rewrite IH; rewrite Hstep; lia.
    + assert (Hstep : ObjectsCreated c (invoke cb st).2 = ObjectsCreated c st)
        by (apply invoke_other_counter; congruence).
      rewrite IH; rewrite Hstep; lia.
Qed.

Lemma Render_text_inj (c d : class) : Render_text c = Render_text d → c = d.
Proof. by destruct c, d. Qed.

Lemma Render_text_registered (c : class) :
  ∃ cb, s_Objects registered_main !! Render_text c = Some cb ∧ class_of cb = c.
Proof. destruct c; eexists; split; vm_compute; reflexivity. Qed.

(** With the registrations of [main], the factory calls of a load that
    construct a [c] are as many as the lines naming [c]. *)
Lemma invocations_registered_main (c : class) (lines : list string) :
  invocations c (factories_of (s_Objects registered_main) lines)
  = Z.of_nat (length (filter (λ id, id = Render_text c) lines)).
Proof.
  induction lines as [|id rest IH]; [done|].
  rewrite factories_of_cons, filter_cons.
  destruct (s_Objects registered_main !! id) as [cb|] eqn:Hcb.
  - rewrite invocations_cons, IH. pose proof (registered_main_text _ _ Hcb) as Ht.
    destruct (decide (class_of cb = c)) as [<-|Hne].
    + rewrite decide_True by done. cbn [length]. lia.
    + rewrite decide_False; [lia|]. intros ->. by apply Hne, Render_text_inj.
  - rewrite decide_False; [done|]. intros ->.
    destruct (Render_text_registered c) as (cb & Hr & _). congruence.
Qed.

(** X11.  When [main] has run on a file of fewer than 2^31 lines, the
    counter of each class is the number of lines of the file that name the
    class: the pass does not count, and the load counts one per object. *)
Theorem main_counts_lines (content : string) (st : State) (c : class) :
  main (Some content) = Some st →
  Z.of_nat (length (read_lines content)) ≤ INT_MAX →
  ObjectsCreated c st
  = Z.of_nat (length (filter (λ id, id = Render_text c) (read_lines content))).
Proof.
  unfold main, Load. intros HT Hlen.
  destruct (load_lines (read_lines content) [] registered_main) as [coll st1] eqn:HL.
  assert (Hst1 : st1 = (load_lines (read_lines content) [] registered_main).2)
    by by rewrite HL.
  destruct (Tick_defined_iff_aux coll st1) as [HF|HE];
    [|by rewrite (Tick_None _ _ HE) in HT].
  rewrite (Tick_Some _ _ HF) in HT. injection HT as <-.
  assert (Hsame : ObjectsCreated c (after_Tick coll st1) = ObjectsCreated c st1)
    by by destruct c.
  rewrite Hsame, Hst1, load_lines_state.
  pose proof (invocations_registered_main c (read_lines content)) as Hinv.
  pose proof (length_filter (λ id, id = Render_text c) (read_lines content)) as Hle.
  assert (H0 : ObjectsCreated c registered_main = 0) by by destruct c.
  rewrite invoke_all_counter; rewrite H0, ?Hinv; unfold INT_MIN; lia.
Qed.

Lemma main_counts_lines_witness :
  ∃ st, main (Some ("plane" +:+ endl +:+ "boat" +:+ endl +:+ "plane")) = Some st
        ∧ ObjectsCreated Plane st = 2.
Proof.
  eexists. split; [vm_compute; reflexivity|].
  apply (main_counts_lines ("plane" +:+ endl +:+ "boat" +:+ endl +:+ "plane") _ Plane).
  - vm_compute; reflexivity.
  - vm_compute; discriminate.
Defined.

(** ** The algebra of registration *)

(** X12.  A call on a type overrides whatever call was made on that type
    just before: registering or unregistering a type, then registering or
    unregistering the same type, leaves the state the second call alone
    would. *)
Theorem run_op_absorbs (op1 op2 : registry_op) (st : State) :
  op_type op1 = op_type op2 → run_op (run_op st op1) op2 = run_op st op2.
Proof.
  intros Heq. destruct op1 as [k1 f|k1], op2 as [k2 g|k2]; cbn in Heq; subst k1;
    apply State_eq; try done; cbn.
  - apply insert_insert_eq.
  - apply delete_insert_eq.
  - apply insert_delete_eq.
  - apply delete_delete_eq.
Qed.

Lemma run_op_absorbs_witness :
  run_op (run_op registered_main (Register "boat" PlaneCreate)) (Unregister "boat")
  = run_op registered_main (Unregister "boat").
Proof. apply (run_op_absorbs (Register "boat" PlaneCreate) (Unregister "boat")). done. Defined.

(** X13.  Calls on different types commute: registering or unregistering
    one type and registering or unregistering another give the same state
    in either order. *)
Theorem run_op_commutes (op1 op2 : registry_op) (st : State) :
  op_type op1 ≠ op_type op2 →
  run_op (run_op st op1) op2 = run_op (run_op st op2) op1.
Proof.
  intros Hne. destruct op1 as [k1 f|k1], op2 as [k2 g|k2]; cbn in Hne;
    apply State_eq; try done; cbn.
  - by apply insert_insert_ne.
  - by apply delete_insert_ne.
  - by apply insert_delete_ne.
  - apply delete_delete.
Qed.

Lemma run_op_commutes_witness :
  run_op (run_op initial (Register "boat" BoatCreate)) (Unregister "plane")
  = run_op (run_op initial (Unregister "plane")) (Register "boat" BoatCreate).
Proof. apply (run_op_commutes (Register "boat" BoatCreate) (Unregister "plane")). done. Defined.

(** X14.  Registering a type and unregistering it again gives back the
    state exactly when the type had no entry; unregistering a type and
    registering it again with a callback gives back the state exactly when
    that callback was its entry. *)
Theorem Register_Unregister_round_trip (k : string) (cb : CreateObjectCallback)
    (st : State) :
  (UnregisterObject k (RegisterObject k cb st) = st ↔ s_Objects st !! k = None)
  ∧ (RegisterObject k cb (UnregisterObject k st) = st ↔ s_Objects st !! k = Some cb).
Proof.
  split; split.
  - intros H. rewrite <- H. cbn. apply lookup_delete_eq.
  - intros H. apply State_eq; try done. cbn. by apply delete_insert_id.
  - intros H. rewrite <- H. cbn. apply lookup_insert_eq.
  - intros H. apply State_eq; try done. cbn. by apply insert_delete_id.
Qed.

(** ** The size of the collection *)

Lemma count_newlines_append (s t : string) :
  count_newlines (s +:+ t) = (count_newlines s + count_newlines t)%nat.
Proof.
  induction s as [|c s IH]; [done|].
  rewrite append_cons. cbn [count_newlines]. rewrite IH. lia.
Qed.

Lemma count_newlines_none (s : string) :
  contains_newline s = false → count_newlines s = 0%nat.
Proof.
  induction s as [|c s IH]; [done|]. cbn.
  intros [-> Hs]%orb_false_iff. by rewrite IH.
Qed.

Lemma count_newlines_unlines (lines : list string) :
  Forall (λ l, contains_newline l = false) lines →
  count_newlines (unlines lines) = length lines.
Proof.
  intros Hall. induction Hall as [|line rest Hline _ IH]; [done|].
  cbn [unlines length]. rewrite !count_newlines_append, IH.
  rewrite (count_newlines_none _ Hline). done.
Qed.

(** X15.  The collection [main] builds from a file has one entry per line
    of the file, that is one per newline character, plus one for a last line
    that no newline ends; this holds whatever the lines are and whatever is
    registered. *)
Theorem Load_length (content : string) (st : State) :
  length (Load (Some content) st).1 = count_newlines (terminated content)
  ∧ length (Load (Some content) st).1 = length (read_lines content)
  ∧ (ends_with_newline content = true →
     length (Load (Some content) st).1 = count_newlines content).
Proof.
  destruct (getlines_terminated (String.length content) content ltac:(done))
    as [Hun Hall].
  fold (read_lines content) in Hun, Hall.
  assert (Hlen : length (Load (Some content) st).1 = length (read_lines content))
    by apply load_lines_length.
  split_and!; [|done|].
  - by rewrite Hlen, <- Hun, count_newlines_unlines.
  - intros He. rewrite Hlen, <- (count_newlines_unlines _ Hall), Hun.
    unfold terminated. by rewrite He.
Qed.

Lemma Load_length_witness :
  length (Load (Some ("plane" +:+ endl +:+ "unicorn" +:+ endl)) registered_main).1
  = 2%nat.
Proof.
  rewrite (proj2 (proj2 (Load_length ("plane" +:+ endl +:+ "unicorn" +:+ endl)
                           registered_main))); reflexivity.
Defined.

(** * The other programs *)

(** ** The logger of [Singleton.cpp] *)

Lemma Singleton_print_each (messages : list string) (st : Singleton.State) :
  Singleton.print_each messages st
  = Singleton.mkState (Singleton.s_instance st) (Singleton.heap st)
      (Singleton.cout st +:+ unlines messages).
Proof.
  revert st. induction messages as [|s rest IH]; intros st.
  - destruct st. cbn. by rewrite append_nil_r.
  - cbn [Singleton.print_each unlines]. rewrite IH. cbn.
    by rewrite !append_assoc.
Qed.

(** The state once the logger exists, holding [seen], after output [o]. *)
Lemma Singleton_run_ready (uses : list Singleton.use) (seen : list string) (o : string) :
  Singleton.run uses (Singleton.mkState (Some 0%nat) [Singleton.mkLogger seen] o)
  = Some (Singleton.mkState (Some 0%nat)
            [Singleton.mkLogger (seen ++ Singleton.added uses)]
            (o +:+ Singleton.printed seen uses)).
Proof.
  revert seen o. induction uses as [|u rest IH]; intros seen o.
  - cbn. by rewrite app_nil_r, append_nil_r.
  - destruct u as [s|].
    + change (Singleton.run (Singleton.use_addMessage s :: rest)
                (Singleton.mkState (Some 0%nat) [Singleton.mkLogger seen] o))
        with (Singleton.run rest
                (Singleton.mkState (Some 0%nat) [Singleton.mkLogger (seen ++ [s])] o)).
      rewrite IH. cbn [Singleton.added Singleton.printed].
      by rewrite <- app_assoc.
    + change (Singleton.run (Singleton.use_printMessages :: rest)
                (Singleton.mkState (Some 0%nat) [Singleton.mkLogger seen] o))
        with (Singleton.run rest
                (Singleton.print_each seen
                   (Singleton.mkState (Some 0%nat) [Singleton.mkLogger seen]
                      (o +:+ "Accessing the log" +:+ endl)))).
      rewrite Singleton_print_each.
      cbn [Singleton.s_instance Singleton.heap Singleton.cout].
      rewrite IH. cbn [Singleton.added Singleton.printed].
      by rewrite !append_assoc.
Qed.

Lemma Singleton_perform_initial (u : Singleton.use) :
  Singleton.perform u Singleton.initial
  = Singleton.perform u
      (Singleton.mkState (Some 0%nat) [Singleton.mkLogger []]
         ("Logger was created" +:+ endl)).
Proof. by destruct u. Qed.

(** X16.  [GetInstance] constructs a [Logger] only while none exists: a
    second call returns the same object and changes nothing, whatever the
    state; the constructor's line is printed by the first call alone. *)
Theorem Logger_GetInstance_once (st : Singleton.State) :
  Singleton.GetInstance (Singleton.GetInstance st).2 = Singleton.GetInstance st
  ∧ (Singleton.s_instance st = None ↔
     Singleton.cout (Singleton.GetInstance st).2
     = Singleton.cout st +:+ "Logger was created" +:+ endl)
  ∧ (Singleton.s_instance st ≠ None ↔ (Singleton.GetInstance st).2 = st)
  ∧ Singleton.s_instance (Singleton.GetInstance st).2
    = Some (Singleton.GetInstance st).1.
Proof.
  destruct st as [[l|] h o]; cbn; split_and!; try done.
  split; [done|]. intros H. exfalso.
    apply (f_equal String.length) in H. rewrite !length_append in H. cbn in H. lia.
Qed.

(** X17.  Whatever client code does with the logger through [GetInstance],
    and however often, one [Logger] is constructed and one only: after any
    sequence of uses that is not empty the heap holds a single logger, whose
    messages are those added, in the order they were added; the output is
    the constructor's line once, then for each [printMessages] its heading
    and the messages added before it, one per line.  [main] is such a
    sequence: two additions and a print. *)
Theorem Logger_run (u : Singleton.use) (uses : list Singleton.use) :
  Singleton.run (u :: uses) Singleton.initial
  = Some (Singleton.mkState (Some 0%nat)
            [Singleton.mkLogger (Singleton.added (u :: uses))]
            ("Logger was created" +:+ endl +:+ Singleton.printed [] (u :: uses)))
  ∧ Singleton.main
    = Singleton.run [Singleton.use_addMessage "Hello";
                     Singleton.use_addMessage "World";
                     Singleton.use_printMessages] Singleton.initial.
Proof.
  split; [|reflexivity].
  cbn [Singleton.run]. rewrite Singleton_perform_initial.
  change (Singleton.run (u :: uses)
            (Singleton.mkState (Some 0%nat) [Singleton.mkLogger []]
               ("Logger was created" +:+ endl)) = Some
            (Singleton.mkState (Some 0%nat)
               [Singleton.mkLogger (Singleton.added (u :: uses))]
               ("Logger was created" +:+ endl +:+ Singleton.printed [] (u :: uses)))).
  rewrite Singleton_run_ready. by rewrite append_assoc.
Qed.

(** ** The singleton of [MultithreadedSingleton.cpp] *)

Lemma MultithreadedSingleton_ready (values : list string)
    (object : MultithreadedSingleton.Singleton) :
  MultithreadedSingleton.GetInstance_all values
    (MultithreadedSingleton.mkState (addr 0) [object])
  = (replicate (length values) (addr 0),
     MultithreadedSingleton.mkState (addr 0) [object]).
Proof.
  induction values as [|v rest IH]; [done|].
  cbn [MultithreadedSingleton.GetInstance_all MultithreadedSingleton.GetInstance
       MultithreadedSingleton.pinstance_].
  by rewrite IH.
Qed.

(** X18.  In whatever order calls of [GetInstance] take the lock, and
    whatever values they pass, one [Singleton] is constructed: every call
    returns the same pointer, and the value read through it is the value
    passed by the first call; the values of later calls are dropped. *)
Theorem GetInstance_first_value_wins (v : string) (values : list string) :
  (MultithreadedSingleton.GetInstance_all (v :: values)
     MultithreadedSingleton.initial).1
  = replicate (S (length values)) (addr 0)
  ∧ (MultithreadedSingleton.GetInstance_all (v :: values)
       MultithreadedSingleton.initial).2
    = MultithreadedSingleton.mkState (addr 0)
        [MultithreadedSingleton.mkSingleton v]
  ∧ Forall (λ p, MultithreadedSingleton.value p
                   (MultithreadedSingleton.GetInstance_all (v :: values)
                      MultithreadedSingleton.initial).2 = Some v)
      (MultithreadedSingleton.GetInstance_all (v :: values)
         MultithreadedSingleton.initial).1.
Proof.
  cbn [MultithreadedSingleton.GetInstance_all MultithreadedSingleton.GetInstance
       MultithreadedSingleton.initial MultithreadedSingleton.pinstance_
       MultithreadedSingleton.heap length app].
  rewrite MultithreadedSingleton_ready. cbn [fst snd].
  split_and!; [done | done |].
  change (addr 0 :: replicate (length values) (addr 0))
    with (replicate (S (length values)) (addr 0)).
  apply Forall_replicate. done.
Qed.

(** ** The counting factory of [FactoryMethodOld.cpp] *)

Lemma CreateObject_all_cons (type : Z) (types : list Z) (st : FactoryMethodOld.State) :
  FactoryMethodOld.CreateObject_all (type :: types) st
  = FactoryMethodOld.CreateObject_all types (FactoryMethodOld.CreateObject type st).2.
Proof. done. Qed.

Lemma CreateObject_step (type : Z) (st : FactoryMethodOld.State) :
  FactoryMethodOld.s_plane_count (FactoryMethodOld.CreateObject type st).2
  = (if decide (type = FactoryMethodOld.PLANE)
     then int_incr (FactoryMethodOld.s_plane_count st)
     else FactoryMethodOld.s_plane_count st)
  ∧ FactoryMethodOld.s_boat_count (FactoryMethodOld.CreateObject type st).2
    = (if decide (type = FactoryMethodOld.BOAT)
       then int_incr (FactoryMethodOld.s_boat_count st)
       else FactoryMethodOld.s_boat_count st)
  ∧ length (FactoryMethodOld.heap (FactoryMethodOld.CreateObject type st).2)
    = (length (FactoryMethodOld.heap st)
       + (if decide (type = FactoryMethodOld.PLANE ∨ type = FactoryMethodOld.BOAT)
          then 1 else 0))%nat
  ∧ FactoryMethodOld.cout (FactoryMethodOld.CreateObject type st).2
    = FactoryMethodOld.cout st.
Proof.
  unfold FactoryMethodOld.CreateObject, FactoryMethodOld.PLANE, FactoryMethodOld.BOAT.
  destruct (Z.eqb_spec type 0) as [->|Hn0];
    [|destruct (Z.eqb_spec type 1) as [->|Hn1]]; cbn;
    repeat match goal with |- context [decide ?P] => destruct (decide P) end;
    rewrite ?length_app; cbn; split_and!; lia || done.
Qed.

Lemma CreateObject_all_counts (types : list Z) (st : FactoryMethodOld.State) :
  INT_MIN ≤ FactoryMethodOld.s_plane_count st →
  INT_MIN ≤ FactoryMethodOld.s_boat_count st →
  FactoryMethodOld.s_plane_count st + Z.of_nat (length types) ≤ INT_MAX →
  FactoryMethodOld.s_boat_count st + Z.of_nat (length types) ≤ INT_MAX →
  FactoryMethodOld.s_plane_count (FactoryMethodOld.CreateObject_all types st)
  = FactoryMethodOld.s_plane_count st
    + Z.of_nat (length (filter (λ t, t = FactoryMethodOld.PLANE) types))
  ∧ FactoryMethodOld.s_boat_count (FactoryMethodOld.CreateObject_all types st)
    = FactoryMethodOld.s_boat_count st
      + Z.of_nat (length (filter (λ t, t = FactoryMethodOld.BOAT) types))
  ∧ length (FactoryMethodOld.heap (FactoryMethodOld.CreateObject_all types st))
    = (length (FactoryMethodOld.heap st)
       + length (filter (λ t, t = FactoryMethodOld.PLANE
                              ∨ t = FactoryMethodOld.BOAT) types))%nat
  ∧ FactoryMethodOld.cout (FactoryMethodOld.CreateObject_all types st)
    = FactoryMethodOld.cout st.
Proof.
  revert st. induction types as [|type types IH]; intros st Hp Hb Hpm Hbm.
  - cbn. split_and!; lia || done.
  - rewrite CreateObject_all_cons, !filter_cons. cbn [length] in Hpm, Hbm.
    destruct (CreateObject_step type st) as (Sp & Sb & Sh & Sc).
    assert (Hp' : FactoryMethodOld.s_plane_count (FactoryMethodOld.CreateObject type st).2
                  = FactoryMethodOld.s_plane_count st
                    + (if decide (type = FactoryMethodOld.PLANE) then 1 else 0)).
    { rewrite Sp. destruct (decide (type = FactoryMethodOld.PLANE));
        [apply int_incr_in_range|]; lia. }
    assert (Hb' : FactoryMethodOld.s_boat_count (FactoryMethodOld.CreateObject type st).2
                  = FactoryMethodOld.s_boat_count st
                    + (if decide (type = FactoryMethodOld.BOAT) then 1 else 0)).
    { rewrite Sb. destruct (decide (type = FactoryMethodOld.BOAT));
        [apply int_incr_in_range|]; lia. }
    destruct (IH (FactoryMethodOld.CreateObject type st).2) as (-> & -> & -> & ->).
    + rewrite Hp'. destruct (decide (type = FactoryMethodOld.PLANE)); lia.
    + rewrite Hb'. destruct (decide (type = FactoryMethodOld.BOAT)); lia.
    + rewrite Hp'. destruct (decide (type = FactoryMethodOld.PLANE)); lia.
    + rewrite Hb'. destruct (decide (type = FactoryMethodOld.BOAT)); lia.
    + rewrite Hp', Hb', Sh, Sc.
      repeat match goal with |- context [decide ?P] => destruct (decide P) end;
        cbn [length]; split_and!; lia || done.
Qed.

(** X19.  The two counts of the factory are the numbers of planes and of
    boats it was asked for, as long as fewer than 2^31 objects were asked
    for; a type that is neither enumerator gives a null pointer and counts
    for nothing.  [PrintCounts] then prints the two numbers in decimal, each
    on its line after its label. *)
Theorem PrintCounts_counts_requests (types : list Z) :
  Z.of_nat (length types) ≤ INT_MAX →
  FactoryMethodOld.cout
    (FactoryMethodOld.PrintCounts
       (FactoryMethodOld.CreateObject_all types FactoryMethodOld.initial))
  = "planes: "
    +:+ pretty (Z.of_nat (length (filter (λ t, t = FactoryMethodOld.PLANE) types)))
    +:+ endl +:+ "boats: "
    +:+ pretty (Z.of_nat (length (filter (λ t, t = FactoryMethodOld.BOAT) types)))
    +:+ endl
  ∧ length (FactoryMethodOld.heap
              (FactoryMethodOld.CreateObject_all types FactoryMethodOld.initial))
    = length (filter (λ t, t = FactoryMethodOld.PLANE ∨ t = FactoryMethodOld.BOAT)
                types)
  ∧ (∀ type st, (FactoryMethodOld.CreateObject type st).1 = nullptr
                ↔ type ≠ FactoryMethodOld.PLANE ∧ type ≠ FactoryMethodOld.BOAT).
Proof.
  intros Hlen.
  destruct (CreateObject_all_counts types FactoryMethodOld.initial)
    as (Hp & Hb & Hh & Hc); try (cbn; unfold INT_MIN; lia).
  split_and!.
  - unfold FactoryMethodOld.PrintCounts, FactoryMethodOld.print_int.
    cbn [FactoryMethodOld.print FactoryMethodOld.cout
         FactoryMethodOld.s_plane_count FactoryMethodOld.s_boat_count].
    rewrite Hp, Hb, Hc. cbn [FactoryMethodOld.initial FactoryMethodOld.cout
      FactoryMethodOld.s_plane_count FactoryMethodOld.s_boat_count].
    rewrite !Z.add_0_l, !append_assoc. done.
  - rewrite Hh. done.
  - intros type st. unfold FactoryMethodOld.CreateObject, FactoryMethodOld.PLANE,
      FactoryMethodOld.BOAT.
    destruct (Z.eqb_spec type 0); [cbn; split; [done | lia]|].
    destruct (Z.eqb_spec type 1); [cbn; split; [done | lia]|].
    cbn. split; [lia | done].
Qed.

Lemma PrintCounts_counts_requests_main :
  FactoryMethodOld.cout FactoryMethodOld.main
  = "planes: 1" +:+ endl +:+ "boats: 2" +:+ endl.
Proof.
  pose proof (PrintCounts_counts_requests
                [FactoryMethodOld.PLANE; FactoryMethodOld.BOAT; FactoryMethodOld.BOAT])
    as [H _].
  - vm_compute. discriminate.
  - vm_compute in H. vm_compute. exact H.
Defined.

(** * Instances *)

Lemma load_lines_entries_witness :
  (load_lines ["plane"; "unicorn"; "boat"] [] registered_main).1 !! 1%nat
  = Some nullptr.
Proof.
  apply (proj1 (load_lines_entries ["plane"; "unicorn"; "boat"] registered_main)).
  exists "unicorn". split; vm_compute; reflexivity.
Defined.

Lemma Tick_defined_iff_witness :
  Tick [addr 0; nullptr; addr 1] loaded_plane_boat.2 = None.
Proof.
  apply (Tick_defined_iff [addr 0; nullptr; addr 1] loaded_plane_boat.2).
  apply list_elem_of_In. cbn. auto.
Defined.

Lemma Tick_app_witness :
  Tick ([addr 0] ++ [addr 1]) loaded_plane_boat.2
  = (Tick [addr 0] loaded_plane_boat.2 ≫= Tick [addr 1]).
Proof. apply (Tick_app [addr 0] [addr 1] loaded_plane_boat.2). Defined.

Lemma main_prints_the_file_witness :
  ∃ st, main (Some ("boat" +:+ endl +:+ "ant")) = Some st
        ∧ cout st = "boat" +:+ endl +:+ "ant" +:+ endl.
Proof.
  eexists. split; [vm_compute; reflexivity|].
  apply (proj2 (main_prints_the_file ("boat" +:+ endl +:+ "ant")) _ eq_refl).
Defined.
